(** * tautulli_to_letterboxd: the export pipeline, embedded and verified

    The development follows [tautulli_to_letterboxd.py]: the text helpers
    used by the row builder, the JSON values returned by [json.loads], the
    interpreter operations the program applies to them, the three network
    functions ([api_handler], [rating_handler], [get_length]), the parser
    [json_parser] and the writer [to_csv]. *)

From Stdlib Require Import String Ascii DecimalString.
From Stdlib Require Import List ZArith NArith Bool Lia.
Import ListNotations.

Set Implicit Arguments.

(** ** Text

    A Python [str] is a sequence of Unicode code points. *)

Definition pystr := list N.

Definition code (a : ascii) : N := N_of_ascii a.

Fixpoint u (s : string) : pystr :=
  match s with
  | EmptyString => []
  | String a s' => code a :: u s'
  end.

Definition LF : N := 10.
Definition CR : N := 13.
Definition SPACE : N := 32.
Definition DQUOTE : N := 34.
Definition COMMA : N := 44.

Definition str_eqb (a b : pystr) : bool :=
  if list_eq_dec N.eq_dec a b then true else false.

(** [c in s] for a one-character [c]. *)
Definition contains (c : N) (s : pystr) : bool := existsb (N.eqb c) s.

(** The code points [str.strip()] removes: those for which
    [str.isspace] holds. *)
Definition isspace (c : N) : bool :=
  ((9 <=? c) && (c <=? 13) || (28 <=? c) && (c <=? 32) || (c =? 133)
   || (c =? 160) || (c =? 5760) || (8192 <=? c) && (c <=? 8202)
   || (c =? 8232) || (c =? 8233) || (c =? 8239) || (c =? 8287)
   || (c =? 12288))%N.

Fixpoint lstrip (s : pystr) : pystr :=
  match s with
  | [] => []
  | c :: s' => if isspace c then lstrip s' else s
  end.

Definition rstrip (s : pystr) : pystr := rev (lstrip (rev s)).

Definition strip (s : pystr) : pystr := rstrip (lstrip s).

(** [s.split(sep)] for a one-character separator: never the empty list. *)
Fixpoint split (sep : N) (s : pystr) : list pystr :=
  match s with
  | [] => [[]]
  | c :: s' =>
      if (c =? sep)%N then [] :: split sep s'
      else match split sep s' with
           | seg :: segs => (c :: seg) :: segs
           | [] => [[c]]
           end
  end.

(** [sep.join(parts)]. *)
Fixpoint join (sep : pystr) (parts : list pystr) : pystr :=
  match parts with
  | [] => []
  | [p] => p
  | p :: ps => p ++ sep ++ join sep ps
  end.

(** The newline translation of a text stream on output: every line feed
    of the text is replaced by the line separator. *)
Fixpoint translate (linesep : pystr) (t : pystr) : pystr :=
  match t with
  | [] => []
  | c :: t' => (if (c =? LF)%N then linesep else [c]) ++ translate linesep t'
  end.

(** Truth value of a [str]: non-empty. *)
Definition nonempty (s : pystr) : bool :=
  match s with [] => false | _ => true end.

(** [' '.join([a.strip() for a in name.split('\n') if a])] *)
Definition normalize (name : pystr) : pystr :=
  join [SPACE] (map strip (filter nonempty (split LF name))).

(** Line 101:
    [title = '"%s"' % ' '.join(...) if ',' in name else name].
    The conditional expression binds weaker than [%]: the quoted,
    normalised text is the value only when the raw name has a comma. *)
Definition render_title (name : pystr) : pystr :=
  if contains COMMA name then [DQUOTE] ++ normalize name ++ [DQUOTE] else name.

(** The normalisation as the specification words it: split on newlines,
    strip every segment, drop the segments that are then empty, join with
    single spaces. *)
Definition spec_normalize (name : pystr) : pystr :=
  join [SPACE] (filter nonempty (map strip (split LF name))).


(** No segment of the name between line feeds consists of white space
    only. *)
Definition no_blank_segment (name : pystr) : bool :=
  forallb (fun seg => negb (nonempty seg) || nonempty (strip seg))
          (split LF name).

(** [str(n)] for an [int]. *)
Definition str_of_int (z : Z) : pystr := u (NilZero.string_of_int (Z.to_int z)).

(** [len(x)] as a Python [int]. *)
Definition len {A} (l : list A) : Z := Z.of_nat (length l).

(** ** JSON values

    What [json.loads] returns: [None], [bool], [int], [float], [str],
    [list] and [dict].  A [float] is kept as the literal it was read from
    (the interpreter decides its value, see [Python] below); a [dict] is
    the list of its items in insertion order, one item per key. *)

Unset Elimination Schemes.
Inductive json : Type :=
| JNull
| JBool (b : bool)
| JInt (z : Z)
| JFloat (lit : pystr)
| JStr (s : pystr)
| JArr (items : list json)
| JObj (members : list (pystr * json)).
Set Elimination Schemes.

(** ** Exceptions *)

Inductive exn_class : Type :=
| KeyError | TypeError | IndexError | ValueError | OverflowError | OSError
| ConnectionError | KeyboardInterrupt | CsvError | OtherError.

Definition exn_class_eq_dec (a b : exn_class) : {a = b} + {a <> b}.
Proof. decide equality. Defined.

Definition is_class (a b : exn_class) : bool :=
  if exn_class_eq_dec a b then true else false.

Record exn : Type := Exn { cls : exn_class; text : pystr }.

(** The interpreter operations of the program that can fail on a value. *)
Inductive op : Type := OpIter | OpGetItem | OpInt | OpLe | OpUnpack.

(** ** The interpreter and the platform

    What the program text does not fix: how the interpreter reads and
    prints floats, parses an [int] from a [str], prints containers, words
    its error messages, converts a timestamp to a local date, and what the
    [csv] module and the file system of the host do. *)

Record Python : Type := {
  (** [str(f)], [int(f)], [bool(f)] and [f == 1] for the float read from
      a literal *)
  float_str : pystr -> pystr;
  float_int : pystr -> exn + Z;
  float_true : pystr -> bool;
  float_is_one : pystr -> bool;
  (** [int(s)] for a [str]; [None] is [ValueError] *)
  str_int : pystr -> option Z;
  (** [str(x)] for a [list] or a [dict] *)
  repr : json -> pystr;
  (** [str(e)] for the error an operation raises on an operand *)
  message : op -> json -> pystr;
  (** [datetime.fromtimestamp(t).strftime('%Y-%m-%d')] in the local zone *)
  local_date : Z -> exn + pystr;
  (** [os.linesep]: what a line feed becomes when it is written to a text
      file opened without [newline=''] (LF, or CR LF on Windows) *)
  linesep : pystr;
  (** the code point the [csv] dialect holds for an unset [quotechar] and
      [escapechar] (NUL in older interpreters, none in newer ones) *)
  csv_unset : option N;
  (** the error of [writer(..., delimiter='\n')], if the [csv] module of
      the interpreter refuses a line feed as delimiter *)
  dialect_error : option exn;
  (** the error of [open(FILE_NAME, 'w')], if the host refuses *)
  open_error : option exn
}.

(** Configuration read at start-up (lines 37-40); [BASE_URL] is part of
    the [server] below. *)
Record Config : Type := { TOKEN : pystr; USER : pystr; FILE_NAME : pystr }.

(** ** Requests *)

Inductive param : Type := PStr (s : pystr) | PInt (z : Z) | PNone.

Definition request := list (pystr * param).

Definition reply := (exn + json)%type.

(** The remote end: what [get] followed by [loads] yields for the n-th
    request of the run, either the parsed body or the exception raised. *)
Definition Server := nat -> request -> reply.

(** ** The world: the requests issued so far with their replies, and the
    operations performed on the output file. *)

(** [Write t]: the text [t] reached the file, after the newline
    translation of the stream. *)
Inductive file_op : Type := Open | Write (t : pystr).

Record world : Type := { calls : list (request * reply); io : list file_op }.

Definition start : world := {| calls := []; io := [] |}.

(** The text in the output file after a sequence of operations ([None]:
    never opened). [Open] with mode ['w'] truncates. *)
Fixpoint content_from (ops : list file_op) (acc : option pystr) : option pystr :=
  match ops with
  | [] => acc
  | Open :: ops' => content_from ops' (Some [])
  | Write t :: ops' =>
      content_from ops' (match acc with Some c => Some (c ++ t) | None => None end)
  end.

Definition content (w : world) : option pystr := content_from (io w) None.

(** The lines a reader finds in a text: pieces between line feeds, a
    carriage return before the line feed belonging to the terminator, and
    no line after the last terminator. *)
Definition chomp (s : pystr) : pystr :=
  match rev s with
  | c :: r => if (c =? CR)%N then rev r else s
  | [] => s
  end.

Definition file_lines (t : pystr) : list pystr :=
  match rev (split LF t) with
  | [] :: r => map chomp (rev r)
  | _ => map chomp (split LF t)
  end.

(** ** Outcomes and the monad of the program *)

Inductive outcome (A : Type) : Type :=
| Ret (a : A)
| Raise (e : exn)
| Exit (msg : pystr)          (* [sys.exit(msg)]: SystemExit *)
| Fuel.                       (* loop budget of the model exhausted *)
Arguments Raise {A} e.
Arguments Exit {A} msg.
Arguments Fuel {A}.

Definition M (A : Type) : Type := world -> outcome A * world.

Definition ret {A} (a : A) : M A := fun w => (Ret a, w).

Definition bind {A B} (m : M A) (k : A -> M B) : M B :=
  fun w =>
    match m w with
    | (Ret a, w') => k a w'
    | (Raise e, w') => (Raise e, w')
    | (Exit msg, w') => (Exit msg, w')
    | (Fuel, w') => (Fuel, w')
    end.

Definition raise {A} (e : exn) : M A := fun w => (Raise e, w).

Definition exit {A} (msg : pystr) : M A := fun w => (Exit msg, w).

Definition out_of_fuel {A} : M A := fun w => (Fuel, w).

Definition lift {A} (r : exn + A) : M A :=
  match r with inl e => raise e | inr a => ret a end.

(** [try: m  except ...: h e]; the handler re-raises what no clause
    matches. SystemExit is not an [Exception] any clause here names. *)
Definition try_except {A} (m : M A) (h : exn -> M A) : M A :=
  fun w =>
    match m w with
    | (Raise e, w') => h e w'
    | r => r
    end.

Declare Scope py_scope.
Delimit Scope py_scope with py.
Notation "x <- m ;; k" := (bind m (fun x => k))
  (at level 100, m at next level, right associativity) : py_scope.
Notation "m ;;; k" := (bind m (fun _ => k))
  (at level 100, right associativity) : py_scope.
Local Open Scope py_scope.

(** ** The program *)

Section Program.

Variable py : Python.
Variable cfg : Config.
Variable server : Server.

(** *** Interpreter operations on loaded values *)

Definition fail {A} (c : exn_class) (o : op) (v : json) : exn + A :=
  inl (Exn c (message py o v)).

Fixpoint lookup (k : pystr) (m : list (pystr * json)) : option json :=
  match m with
  | [] => None
  | (k', v) :: m' => if str_eqb k k' then Some v else lookup k m'
  end.

(** [v[k]] for a [str] key. *)
Definition get_key (v : json) (k : pystr) : exn + json :=
  match v with
  | JObj m =>
      match lookup k m with
      | Some x => inr x
      | None => fail KeyError OpGetItem (JStr k)
      end
  | _ => fail TypeError OpGetItem v
  end.

(** [v[i]] for an [int] index; a negative index counts from the end. A
    [dict] loaded from JSON has only [str] keys. *)
Definition get_index (v : json) (i : Z) : exn + json :=
  match v with
  | JArr l =>
      let j := (if i <? 0 then i + len l else i)%Z in
      if ((0 <=? j) && (j <? len l))%Z
      then inr (nth (Z.to_nat j) l JNull)
      else inl (Exn IndexError (u"list index out of range"))
  | JStr s =>
      let j := (if i <? 0 then i + len s else i)%Z in
      if ((0 <=? j) && (j <? len s))%Z
      then inr (JStr [nth (Z.to_nat j) s 0%N])
      else inl (Exn IndexError (u"string index out of range"))
  | JObj _ => fail KeyError OpGetItem (JInt i)
  | _ => fail TypeError OpGetItem v
  end.

(** The number of passes of [for _ in v]. *)
Definition iterations (v : json) : exn + nat :=
  match v with
  | JObj m => inr (length m)
  | JArr l => inr (length l)
  | JStr s => inr (length s)
  | _ => fail TypeError OpIter v
  end.

(** Truth value, as [not v] tests it. *)
Definition truthy (v : json) : bool :=
  match v with
  | JNull => false
  | JBool b => b
  | JInt z => negb (z =? 0)%Z
  | JFloat lit => float_true py lit
  | JStr s => nonempty s
  | JArr l => match l with [] => false | _ => true end
  | JObj m => match m with [] => false | _ => true end
  end.

(** [v == 1] *)
Definition equals_one (v : json) : bool :=
  match v with
  | JInt z => (z =? 1)%Z
  | JBool b => b
  | JFloat lit => float_is_one py lit
  | _ => false
  end.

(** [str(v)], which is also how an f-string renders [v]. *)
Definition py_str (v : json) : pystr :=
  match v with
  | JNull => u"None"
  | JBool true => u"True"
  | JBool false => u"False"
  | JInt z => str_of_int z
  | JFloat lit => float_str py lit
  | JStr s => s
  | JArr _ | JObj _ => repr py v
  end.

(** [int(v)] *)
Definition py_int (v : json) : exn + Z :=
  match v with
  | JInt z => inr z
  | JBool b => inr (if b then 1 else 0)%Z
  | JFloat lit => float_int py lit
  | JStr s =>
      match str_int py s with
      | Some z => inr z
      | None => fail ValueError OpInt v
      end
  | _ => fail TypeError OpInt v
  end.

(** [count <= total_count], where [total_count] may be [None]. *)
Definition le_count (count : Z) (total_count : option Z) : exn + bool :=
  match total_count with
  | Some t => inr (count <=? t)%Z
  | None => fail TypeError OpLe JNull
  end.

(** [params[k] = v] *)
Fixpoint dict_set (k : pystr) (v : param) (d : request) : request :=
  match d with
  | [] => [(k, v)]
  | (k', v') :: d' =>
      if str_eqb k k' then (k, v) :: d' else (k', v') :: dict_set k v d'
  end.

(** *** [api_handler] (lines 44-51) *)

Definition api_handler (params : request) : M json :=
  fun w =>
    let params' := dict_set (u"apikey") (PStr (TOKEN cfg)) params in
    let r := server (length (calls w)) params' in
    let w' := {| calls := calls w ++ [(params', r)]; io := io w |} in
    match r with
    | inr j => (Ret j, w')
    | inl e =>
        if is_class (cls e) ConnectionError
        then (Exit (text e ++ [LF] ++ u"Base URL invalid, please try again"), w')
        else (Raise e, w')
    end.

(** *** [rating_handler] (lines 55-63): the first pass of the loop
    returns; with nothing to iterate the function falls off its end. *)

Definition rating_handler (rating : pystr) : M json :=
  json_data <- api_handler [(u"cmd", PStr (u"get_metadata"));
                            (u"rating_key", PStr rating)] ;;
  n <- lift (iterations json_data) ;;
  match n with
  | O => ret JNull
  | S _ =>
      r <- lift (get_key json_data (u"response")) ;;
      d <- lift (get_key r (u"data")) ;;
      if negb (truthy d) then ret JNull
      else lift (get_key d (u"user_rating"))
  end.

(** *** [get_length] (lines 67-74) *)

Definition history_params : request :=
  [(u"cmd", PStr (u"get_history")); (u"media_type", PStr (u"movie"));
   (u"search", PStr (USER cfg))].

Definition get_length : M (option Z) :=
  json_data <- api_handler history_params ;;
  n <- lift (iterations json_data) ;;
  match n with
  | O => ret None
  | S _ =>
      try_except
        (r <- lift (get_key json_data (u"response")) ;;
         d <- lift (get_key r (u"data")) ;;
         x <- lift (get_key d (u"recordsFiltered")) ;;
         z <- lift (py_int x) ;;
         ret (Some z))
        (fun e =>
           if is_class (cls e) KeyError
           then exit (u"API key invalid, please try again")
           else raise e)
  end.

(** *** [json_parser] (lines 78-121) *)

(** [json_data['response']['data']['data'][count]] *)
Definition record_at (json_data : json) (count : Z) : M json :=
  r <- lift (get_key json_data (u"response")) ;;
  d <- lift (get_key r (u"data")) ;;
  l <- lift (get_key d (u"data")) ;;
  lift (get_index l count).

(** Line 109: [f'{title},{year},{rating10},{watched_date}'] *)
Definition row_text (title year : pystr) (rating10 : json) (watched_date : pystr)
  : pystr :=
  title ++ [COMMA] ++ year ++ [COMMA] ++ py_str rating10 ++ [COMMA] ++ watched_date.

(** [row in movies] *)
Definition member (row : pystr) (movies : list pystr) : bool :=
  existsb (str_eqb row) movies.

(** Line 111: [movies.append(row) if row not in movies else None] *)
Definition offer (row : pystr) (movies : list pystr) : list pystr :=
  if negb (member row movies) then movies ++ [row] else movies.

(** Lines 98-111, the body of [if watched_status == 1]; every field is
    read from the record at the current index. The spinner of line 113
    only draws on the terminal. *)
Definition visit (json_data : json) (count : Z) (movies : list pystr)
  : M (list pystr) :=
  r <- record_at json_data count ;;
  t <- lift (get_key r (u"title")) ;;
  let name := py_str t in
  let title := render_title name in
  r <- record_at json_data count ;;
  y <- lift (get_key r (u"year")) ;;
  let year := py_str y in
  r <- record_at json_data count ;;
  k <- lift (get_key r (u"rating_key")) ;;
  rating10 <- rating_handler (py_str k) ;;
  r <- record_at json_data count ;;
  d <- lift (get_key r (u"date")) ;;
  z <- lift (py_int d) ;;
  watched_date <- lift (local_date py z) ;;
  let row := row_text title year rating10 watched_date in
  ret (offer row movies).

(** Lines 94-113: the status of the record at the current index is read
    and the record is visited when it equals 1. *)
Definition pass (json_data : json) (count : Z) (movies : list pystr)
  : M (list pystr) :=
  r <- record_at json_data count ;;
  watched_status <- lift (get_key r (u"watched_status")) ;;
  if equals_one watched_status
  then visit json_data count movies
  else ret movies.

(** How the [while] loop is left: by the [return] of line 119, or because
    its condition became false. *)
Inductive flow : Type :=
| Returned (movies : list pystr) (n : Z)
| Fell (movies : list pystr).

(** Lines 92-119: the loop around [pass]. *)
Fixpoint while_loop (fuel : nat) (json_data : json) (total_count : option Z)
    (count : Z) (movies : list pystr) : M flow :=
  match fuel with
  | O => out_of_fuel
  | S fuel' =>
      c <- lift (le_count count total_count) ;;
      if c : bool then
        movies <- pass json_data count movies ;;
        let count := (count + 1)%Z in
        if match total_count with Some t => (count =? t)%Z | None => false end
        then ret (Returned movies (len movies))
        else while_loop fuel' json_data total_count count movies
      else ret (Fell movies)
  end.

(** Passes the [while] loop can make before it is left. *)
Definition budget (total_count : option Z) : nat :=
  match total_count with
  | Some t => Z.to_nat t + 2
  | None => 1
  end.

(** Lines 88-119: one pass per key of the response, [count] reset at
    each; [None] when the loop runs out without a [return]. *)
Fixpoint for_loop (passes : nat) (json_data : json) (total_count : option Z)
    (movies : list pystr) : M (option (list pystr * Z)) :=
  match passes with
  | O => ret None
  | S passes' =>
      f <- while_loop (budget total_count) json_data total_count 0%Z movies ;;
      match f with
      | Returned movies n => ret (Some (movies, n))
      | Fell movies => for_loop passes' json_data total_count movies
      end
  end.

Definition json_parser : M (option (list pystr * Z)) :=
  total_count <- get_length ;;
  json_data <- api_handler
    (history_params ++
     [(u"length", match total_count with Some t => PInt t | None => PNone end)]) ;;
  try_except
    (passes <- lift (iterations json_data) ;;
     for_loop passes json_data total_count [])
    (fun e =>
       if is_class (cls e) IndexError
       then exit (text e ++ [LF] ++
                  u"Index Error, please check your configuration and try again")
       else raise e).

(** *** [to_csv] (lines 125-140) *)

Definition header : pystr := u"Title,Year,Rating10,WatchedDate".

(** [open(FILE_NAME, 'w', encoding='utf-8')] *)
Definition open_file : M unit :=
  fun w =>
    match open_error py with
    | Some e => (Raise e, w)
    | None => (Ret tt, {| calls := calls w; io := io w ++ [Open] |})
    end.

(** Code points UTF-8 can encode: all but the surrogates. *)
Definition encodable (c : N) : bool :=
  ((c <? 55296) || (57343 <? c) && (c <=? 1114111))%N.

(** [data_file.write(t)]: the file of line 129 is a text stream opened
    without [newline=''], so the line feeds of [t] reach the file as the
    line separator of the host. *)
Definition write (t : pystr) : M unit :=
  fun w =>
    if forallb encodable t
    then (Ret tt, {| calls := calls w;
                     io := io w ++ [Write (translate (linesep py) t)] |})
    else (Raise (Exn ValueError (u"surrogates not allowed")), w).

(** Line 131: [writer(data_file, quoting=QUOTE_NONE, quotechar=None,
    delimiter='\n')] *)
Definition make_writer : M unit :=
  match dialect_error py with
  | Some e => raise e
  | None => ret tt
  end.

(** Characters the writer of line 131 would have to escape: the
    delimiter, the characters of the line terminator, and what stands for
    the unset [quotechar] and [escapechar]. *)
Definition needs_escape (c : N) : bool :=
  ((c =? LF) || (c =? CR))%N
  || match csv_unset py with Some z => (c =? z)%N | None => false end.

(** [csv_writer.writerow(fields)] with [quoting=QUOTE_NONE],
    [quotechar=None], [delimiter='\n'], no [escapechar] and the default
    line terminator: the fields joined by the delimiter, then CR LF, in
    one [write]. *)
Definition writerow (fields : list pystr) : M unit :=
  if existsb (existsb needs_escape) fields
  then raise (Exn CsvError (u"need to escape, but no escapechar set"))
  else match fields with
       | [[]] => raise (Exn CsvError (u"empty record must be quoted"))
       | _ => write (join [LF] fields ++ [CR; LF])
       end.

Definition to_csv : M unit :=
  try_except
    (r <- json_parser ;;
     match r with
     | None => raise (Exn TypeError (message py OpUnpack JNull))
     | Some (movies, movies_length) =>
         open_file ;;;
         make_writer ;;;
         writerow [header] ;;;
         writerow movies
     end)
    (fun e =>
       if is_class (cls e) TypeError
       then exit (text e ++ [LF] ++
                  u"Invalid user, please check your configuration and try again")
       else if is_class (cls e) KeyboardInterrupt
       then exit ([LF] ++ u"Exporting movies to " ++ FILE_NAME cfg ++
                  u" has been halted.")
       else raise e).

Definition main : M unit := to_csv.

End Program.

Arguments u : simpl never.
Arguments get_key : simpl never.
Arguments get_index : simpl never.

(** ** A concrete interpreter, configuration and servers

    Used to run the model: UTC as the local time zone, ASCII digits for
    [int(str)], the message texts of a recent CPython. *)

Module Sample.

Definition two_digits (z : Z) : pystr :=
  (if z <? 10 then u"0" else [])%Z ++ str_of_int z.

(** Civil date of a Unix time in UTC, for the years [datetime] accepts
    from the epoch on. *)
Definition utc_date (t : Z) : exn + pystr :=
  (if (t <? 0) || (253402300799 <? t)
   then inl (Exn ValueError (u"year out of range"))
   else
     let z := t / 86400 + 719468 in
     let era := z / 146097 in
     let doe := z - era * 146097 in
     let yoe := (doe - doe / 1460 + doe / 36524 - doe / 146096) / 365 in
     let doy := doe - (365 * yoe + yoe / 4 - yoe / 100) in
     let mp := (5 * doy + 2) / 153 in
     let d := doy - (153 * mp + 2) / 5 + 1 in
     let m := if mp <? 10 then mp + 3 else mp - 9 in
     let y := yoe + era * 400 + (if m <=? 2 then 1 else 0) in
     inr (str_of_int y ++ u"-" ++ two_digits m ++ u"-" ++ two_digits d))%Z.

Fixpoint digits (s : pystr) (acc : Z) : option Z :=
  match s with
  | [] => Some acc
  | c :: s' =>
      if ((48 <=? c) && (c <=? 57))%N
      then digits s' (10 * acc + Z.of_N (c - 48))%Z
      else None
  end.

Definition ascii_int (s : pystr) : option Z :=
  match s with
  | [] => None
  | c :: s' =>
      if (c =? 45)%N
      then match s' with [] => None | _ => option_map Z.opp (digits s' 0%Z) end
      else digits s 0%Z
  end.

Definition texts (o : op) (v : json) : pystr :=
  match o with
  | OpIter => u"object is not iterable"
  | OpGetItem =>
      match v with
      | JStr k => u"'" ++ k ++ u"'"
      | JInt i => str_of_int i
      | _ => u"object is not subscriptable"
      end
  | OpInt => u"invalid argument for int()"
  | OpLe => u"'<=' not supported between instances of 'int' and 'NoneType'"
  | OpUnpack => u"cannot unpack non-iterable NoneType object"
  end.

Definition cpython : Python := {|
  float_str := fun lit => lit;
  float_int := fun lit =>
    match ascii_int (hd [] (split 46 lit)) with
    | Some z => inr z
    | None => inl (Exn ValueError (u"cannot convert float to integer"))
    end;
  float_true := fun lit => negb (str_eqb lit (u"0.0") || str_eqb lit (u"-0.0"));
  float_is_one := fun lit => str_eqb lit (u"1.0");
  str_int := ascii_int;
  repr := fun _ => u"[...]";
  message := texts;
  local_date := utc_date;
  linesep := [LF];
  csv_unset := None;
  dialect_error := None;
  open_error := None
|}.

(** The same interpreter on a host whose line separator is CR LF. *)
Definition windows : Python := {|
  float_str := float_str cpython;
  float_int := float_int cpython;
  float_true := float_true cpython;
  float_is_one := float_is_one cpython;
  str_int := str_int cpython;
  repr := repr cpython;
  message := message cpython;
  local_date := local_date cpython;
  linesep := [CR; LF];
  csv_unset := csv_unset cpython;
  dialect_error := dialect_error cpython;
  open_error := open_error cpython
|}.

Definition config : Config :=
  {| TOKEN := u"secret"; USER := u"alice"; FILE_NAME := u"output.csv" |}.

(** Responses of the API. *)
Definition api_response (data : json) : json :=
  JObj [(u"response", JObj [(u"result", JStr (u"success")); (u"data", data)])].

Definition history (count : Z) (records : list json) : json :=
  api_response (JObj [(u"recordsFiltered", JInt count); (u"data", JArr records)]).

Definition movie (key : Z) (title : pystr) (year : Z) (watched : Z) (date : Z)
  : json :=
  JObj [(u"rating_key", JInt key); (u"title", JStr title); (u"year", JInt year);
        (u"watched_status", JInt watched); (u"date", JInt date)].

Fixpoint param_of (k : pystr) (r : request) : option param :=
  match r with
  | [] => None
  | (k', v) :: r' => if str_eqb k k' then Some v else param_of k r'
  end.

(** A server that answers [get_history] with the given count and records
    and [get_metadata] through [meta]. *)
Definition mock (count : Z) (records : list json) (meta : pystr -> reply)
  : Server :=
  fun _ r =>
    match param_of (u"cmd") r, param_of (u"rating_key") r with
    | Some (PStr c), Some (PStr k) =>
        if str_eqb c (u"get_metadata") then meta k
        else inr (history count records)
    | _, _ => inr (history count records)
    end.

Definition rated (rating : json) : pystr -> reply :=
  fun _ => inr (api_response (JObj [(u"user_rating", rating)])).

Definition unrated : pystr -> reply := fun _ => inr (api_response (JObj [])).

(** The end-to-end scenario: a count of 2, one watched record with a comma
    in its title and a rating, one unwatched record. *)
Definition two_records : list json :=
  [movie 101 (u"Movie, The Sequel") 2019 1 1700000000;
   movie 102 (u"Clean Title") 2020 0 1700086400].

Definition server_two : Server := mock 2 two_records (rated (JInt 8)).

(** A run of one unwatched record. *)
Definition server_unwatched : Server :=
  mock 1 [movie 102 (u"Clean Title") 2020 0 1700086400] unrated.

(** A server whose responses hold no payload at all. *)
Definition server_null : Server :=
  fun _ _ => inr (JObj [(u"response", JNull)]).

(** A server that rejects the credential the way Tautulli does. *)
Definition server_rejecting : Server :=
  fun _ _ => inr (JObj [(u"response",
                         JObj [(u"result", JStr (u"error"));
                               (u"message", JStr (u"Invalid apikey"));
                               (u"data", JObj [])])]).

(** A server that reports no record. *)
Definition server_empty : Server := mock 0 [] unrated.


(** A server that has no rating for the watched record. *)
Definition server_unrated : Server := mock 2 two_records unrated.

(** A watched record whose title has a line feed and no comma. *)
Definition server_newline : Server :=
  mock 1 [movie 103 (u"Line One" ++ [LF] ++ u"Line Two") 2021 1 1700000000]
       (rated (JInt 7)).

(** A server that reports more records than it returns. *)
Definition server_short : Server :=
  mock 3 [movie 102 (u"Clean Title") 2020 0 1700086400] unrated.


(** A server whose metadata payload lacks the rating. *)
Definition server_no_rating_key : Server :=
  mock 2 two_records
       (fun _ => inr (api_response (JObj [(u"title", JStr (u"Movie"))]))).

(** A server whose n-th response raises the given exception. *)
Definition raising_at (n : nat) (e : exn) (s : Server) : Server :=
  fun i r => if (i =? n)%nat then inl e else s i r.

(** A server that reports one record and returns two, both watched. *)
Definition two_watched : list json :=
  [movie 101 (u"Movie, The Sequel") 2019 1 1700000000;
   movie 104 (u"Second Film") 2021 1 1700086400].

Definition server_beyond : Server := mock 1 two_watched (rated (JInt 8)).



(** A server that is unreachable from the n-th request on. *)
Definition unreachable_from (n : nat) (s : Server) : Server :=
  fun i r =>
    if (n <=? i)%nat then inl (Exn ConnectionError (u"Connection refused"))
    else s i r.

End Sample.


(** ** Vocabulary of the statements *)

(** [v[k1][k2]...] *)
Definition path (py : Python) (v : json) (keys : list pystr) : exn + json :=
  fold_left (fun acc k => match acc with inr x => get_key py x k | inl e => inl e end)
            keys (inr v).

Definition records_path : list pystr := [u"response"; u"data"; u"data"].
Definition count_path : list pystr := [u"response"; u"data"; u"recordsFiltered"].
Definition payload_path : list pystr := [u"response"; u"data"].

(** [json_data['response']['data']['data'][count]] as a value. *)
Definition record (py : Python) (json_data : json) (count : Z) : exn + json :=
  match path py json_data records_path with
  | inr l => get_index py l count
  | inl e => inl e
  end.

(** The record passes the test of line 96. *)
Definition watched (py : Python) (rec : json) : bool :=
  match get_key py rec (u"watched_status") with
  | inr ws => equals_one py ws
  | inl _ => false
  end.

(** The requests as [api_handler] sends them. *)
Definition count_request (cfg : Config) : request :=
  dict_set (u"apikey") (PStr (TOKEN cfg)) (history_params cfg).

Definition fetch_request (cfg : Config) (total_count : option Z) : request :=
  dict_set (u"apikey") (PStr (TOKEN cfg))
    (history_params cfg ++
     [(u"length", match total_count with Some t => PInt t | None => PNone end)]).

Definition metadata_request (cfg : Config) (rating : pystr) : request :=
  dict_set (u"apikey") (PStr (TOKEN cfg))
    [(u"cmd", PStr (u"get_metadata")); (u"rating_key", PStr rating)].

(** What lines 57-63 make of a metadata response. *)
Definition rating_of (py : Python) (json_data : json) : exn + json :=
  match iterations py json_data with
  | inl e => inl e
  | inr O => inr JNull
  | inr (S _) =>
      match path py json_data payload_path with
      | inl e => inl e
      | inr d => if negb (truthy py d) then inr JNull
                 else get_key py d (u"user_rating")
      end
  end.

(** [row] is the candidate row of the record when its rating is looked
    up by the request number [i] of the run: its title, year and date
    rendered as lines 98-109 do, with the rating lines 57-63 take from
    the response to that request. *)
Definition candidate (py : Python) (cfg : Config) (server : Server)
    (i : nat) (rec : json) (row : pystr) : Prop :=
  exists t y k d z date j rating,
    get_key py rec (u"title") = inr t /\
    get_key py rec (u"year") = inr y /\
    get_key py rec (u"rating_key") = inr k /\
    get_key py rec (u"date") = inr d /\
    py_int py d = inr z /\
    local_date py z = inr date /\
    server i (metadata_request cfg (py_str py k)) = inr j /\
    rating_of py j = inr rating /\
    row = row_text py (render_title (py_str py t)) (py_str py y) rating date.

(** Records with the numbers of consecutive requests, from [base] on. *)
Definition numbered (base : nat) (recs : list json) : list (nat * json) :=
  combine (seq base (length recs)) recs.

(** [rows] are the candidate rows of the records, in order, the lookups
    being the requests [base], [base + 1], ... of the run. *)
Definition candidates (py : Python) (cfg : Config) (server : Server)
    (base : nat) (recs : list json) (rows : list pystr) : Prop :=
  Forall2 (fun ir row => candidate py cfg server (fst ir) (snd ir) row)
          (numbered base recs) rows.


(** The distinct rows of a list, each at its first occurrence. *)
Fixpoint first_seen (rows : list pystr) : list pystr :=
  match rows with
  | [] => []
  | r :: rs => r :: filter (fun x => negb (str_eqb x r)) (first_seen rs)
  end.

(** Between [w] and [w'] the first request was answered with a count of
    [t] and the second with the record list [l]. *)
Definition fetched (py : Python) (w w' : world) (t : Z) (l : list json) : Prop :=
  exists req1 j1 x req2 json_data,
    nth_error (calls w') (length (calls w)) = Some (req1, inr j1) /\
    path py j1 count_path = inr x /\ py_int py x = inr t /\
    nth_error (calls w') (S (length (calls w))) = Some (req2, inr json_data) /\
    path py json_data records_path = inr (JArr l).

Definition credential_hint : pystr := u"API key invalid, please try again".
Definition index_hint : pystr :=
  u"Index Error, please check your configuration and try again".
Definition user_hint : pystr :=
  u"Invalid user, please check your configuration and try again".

(** The titles of the examples. *)
Definition two_line_title : pystr :=
  u"Line One" ++ [LF] ++ u"  Line Two  " ++ [LF].
Definition two_line_comma_title : pystr :=
  u"Line One," ++ [LF] ++ u"  Line Two  " ++ [LF].
Definition blank_segment_title : pystr :=
  u"A," ++ [LF] ++ u" " ++ [LF] ++ u"B".

(** The claim on the lines of the file as the specification words it:
    after a run that completes, the lines are the header and the distinct
    candidate rows of the fetched records that are watched. *)
Definition one_line_per_row (py : Python) (cfg : Config) (server : Server)
    (w : world) : Prop :=
  forall w', to_csv py cfg server w = (Ret tt, w') ->
    exists t l rows,
      fetched py w w' t l /\
      candidates py cfg server (length (calls w) + 2) (filter (watched py) l)
                 rows /\
      option_map file_lines (content w') = Some (header :: first_seen rows).


(** The rows as the pieces of the second write: the last one carries the
    carriage return of the terminator. *)
Fixpoint marked (rows : list pystr) : list pystr :=
  match rows with
  | [] => []
  | [r] => [r ++ [CR]]
  | r :: rs => r :: marked rs
  end.

(** The world after one more request and its reply. *)
Definition after (w : world) (req : request) (r : reply) : world :=
  {| calls := calls w ++ [(req, r)]; io := io w |}.

(** The claim on a count response without the field as the specification
    words it: whenever the response is a non-empty object in which the
    field cannot be reached, the run exits with the credential message
    after that one request. *)
Definition credential_claim (py : Python) (cfg : Config) (server : Server)
    (w : world) : Prop :=
  forall members e,
    server (length (calls w)) (count_request cfg) = inr (JObj members) ->
    members <> [] ->
    path py (JObj members) count_path = inl e ->
    to_csv py cfg server w
      = (Exit credential_hint, after w (count_request cfg) (inr (JObj members))).

(** A computation that leaves the output file alone. *)
Definition quiet {A} (m : M A) : Prop := forall w, io (snd (m w)) = io w.

(** A computation that is left by a result, an exception or an exit. *)
Definition total {A} (m : M A) : Prop := forall w, fst (m w) <> Fuel.

(** The parser returned a pair, as [to_csv] unpacks it. *)
Definition parsed {A} (o : outcome (option A)) : bool :=
  match o with Ret (Some _) => true | _ => false end.

(** Passes that suffice for the [while] loop entered at [count]. *)
Definition enough (fuel : nat) (total_count : option Z) (count : Z) : Prop :=
  match total_count with
  | Some t => (Z.to_nat (t + 1 - count) + 1 <= fuel)%nat
  | None => (1 <= fuel)%nat
  end.

(** The text of the connection error a reply stands for, if it is one. *)
Definition conn_error (r : reply) : option pystr :=
  match r with
  | inl e => if is_class (cls e) ConnectionError then Some (text e) else None
  | inr _ => None
  end.

Definition reachable (tr : list (request * reply)) : Prop :=
  Forall (fun c => conn_error (snd c) = None) tr.

Definition exit_message {A} (o : outcome A) : option pystr :=
  match o with Exit msg => Some msg | _ => None end.

Definition connection_hint : pystr := u"Base URL invalid, please try again".

(** The last request met a connection error, no earlier one did, and the
    outcome is the exit with the text of that error and the hint. *)
Definition aborted_on_last {A} (o : outcome A) (tr : list (request * reply))
  : Prop :=
  exists tr0 req r t,
    tr = tr0 ++ [(req, r)] /\ reachable tr0 /\ conn_error r = Some t /\
    exit_message o = Some (t ++ [LF] ++ connection_hint).

Definition fail_fast {A} (m : M A) : Prop :=
  forall w, reachable (calls w) ->
    reachable (calls (snd (m w))) \/
    aborted_on_last (fst (m w)) (calls (snd (m w))).

(** The value of a parameter of a request. *)
Fixpoint param_value (k : pystr) (r : request) : option param :=
  match r with
  | [] => None
  | (k', v) :: r' => if str_eqb k k' then Some v else param_value k r'
  end.

(** The request carries the configured token as its [apikey]. *)
Definition carries_token (cfg : Config) (c : request * reply) : Prop :=
  param_value (u"apikey") (fst c) = Some (PStr (TOKEN cfg)).

(** A computation that only appends requests, each with the token. *)
Definition authenticated (cfg : Config) {A} (m : M A) : Prop :=
  forall w, exists new,
    calls (snd (m w)) = calls w ++ new /\ Forall (carries_token cfg) new.

Definition halted_message (cfg : Config) : pystr :=
  [LF] ++ u"Exporting movies to " ++ FILE_NAME cfg ++ u" has been halted.".

(** The messages the program exits with. *)
Definition known_exit (cfg : Config) (msg : pystr) : Prop :=
  (exists t, msg = t ++ [LF] ++ connection_hint) \/
  msg = credential_hint \/
  (exists t, msg = t ++ [LF] ++ index_hint) \/
  (exists t, msg = t ++ [LF] ++ user_hint) \/
  msg = halted_message cfg.

Definition exits_known (cfg : Config) {A} (m : M A) : Prop :=
  forall w msg, fst (m w) = Exit msg -> known_exit cfg msg.

(** Every request so far was answered with a body that parsed. *)
Definition is_body (r : reply) : bool :=
  match r with inr _ => true | inl _ => false end.

Definition served (tr : list (request * reply)) : Prop :=
  Forall (fun c => is_body (snd c) = true) tr.

(** An exception of a request that neither [api_handler] nor the parser
    has a clause for. *)
Definition foreign (e : exn) : Prop :=
  is_class (cls e) ConnectionError = false /\
  is_class (cls e) IndexError = false.

(** The last request raised, no earlier one did, the computation did not
    return, and a foreign exception is the outcome as it was raised. *)
Definition surfaced {A} (o : outcome A) (tr : list (request * reply)) : Prop :=
  exists tr0 req e,
    tr = tr0 ++ [(req, inl e)] /\ served tr0 /\
    (forall a, o <> Ret a) /\ (foreign e -> o = Raise e).

Definition transparent {A} (m : M A) : Prop :=
  forall w, served (calls w) ->
    served (calls (snd (m w))) \/
    surfaced (fst (m w)) (calls (snd (m w))).

(** What [to_csv] makes of an exception that reaches it. *)
Definition at_top (cfg : Config) (e : exn) : outcome unit :=
  if is_class (cls e) TypeError then Exit (text e ++ [LF] ++ user_hint)
  else if is_class (cls e) KeyboardInterrupt then Exit (halted_message cfg)
  else Raise e.

(** The characters of a text that are not white space. *)
Definition ink (s : pystr) : pystr := filter (fun c => negb (isspace c)) s.

(** * Properties *)

(** ** Text lemmas *)

Section TextFacts.

Lemma contains_In (c : N) (s : pystr) : contains c s = true <-> In c s.
Proof.
  unfold contains. rewrite existsb_exists. split.
  - intros [x [Hx Heq]]. apply N.eqb_eq in Heq. now subst.
  - intro H. exists c. split; [assumption | apply N.eqb_refl].
Qed.

Lemma contains_false (c : N) (s : pystr) : contains c s = false <-> ~ In c s.
Proof.
  rewrite <- contains_In. destruct (contains c s); split; congruence.
Qed.

Lemma split_cons (sep : N) (s : pystr) :
  exists seg segs, split sep s = seg :: segs.
Proof.
  induction s as [|c s IH]; simpl; [now eauto|].
  destruct (c =? sep)%N; [now eauto|].
  destruct IH as [seg [segs ->]]. now eauto.
Qed.

Lemma In_split (sep c : N) (s : pystr) :
  c <> sep -> (In c s <-> exists seg, In seg (split sep s) /\ In c seg).
Proof.
  intro Hne. induction s as [|a s IH]; simpl.
  - split; [tauto|]. intros [seg [[<-|[]] []]].
  - destruct (N.eqb_spec a sep) as [->|Ha].
    + rewrite IH. split.
      * intros [H|[seg [H1 H2]]]; [congruence|]. exists seg. simpl. tauto.
      * intros [seg [[<-|H1] H2]]; [destruct H2|]. right. now exists seg.
    + destruct (split_cons sep s) as [seg0 [segs E]]. rewrite E in *.
      rewrite IH. split.
      * intros [->|[seg [[<-|H1] H2]]].
        -- exists (c :: seg0). simpl. tauto.
        -- exists (a :: seg0). simpl. tauto.
        -- exists seg. simpl. tauto.
      * intros [seg [[<-|H1] H2]].
        -- destruct H2 as [->|H2]; [now left|]. right. exists seg0. simpl. tauto.
        -- right. exists seg. simpl. tauto.
Qed.

Lemma split_free (sep : N) (s seg : pystr) :
  In seg (split sep s) -> ~ In sep seg.
Proof.
  revert seg. induction s as [|a s IH]; simpl; intros seg H.
  - destruct H as [<-|[]]. tauto.
  - destruct (N.eqb_spec a sep) as [->|Ha].
    + destruct H as [<-|H]; [tauto | now apply IH].
    + destruct (split_cons sep s) as [seg0 [segs E]]. rewrite E in *.
      destruct H as [<-|H].
      * intros [Heq|Hin]; [congruence|]. apply (IH seg0); simpl; tauto.
      * apply IH. simpl. tauto.
Qed.

Lemma lstrip_incl (c : N) (s : pystr) : In c (lstrip s) -> In c s.
Proof.
  induction s as [|a s IH]; simpl; [tauto|].
  destruct (isspace a); simpl; tauto.
Qed.

Lemma lstrip_keeps (c : N) (s : pystr) :
  isspace c = false -> In c s -> In c (lstrip s).
Proof.
  intro Hc. induction s as [|a s IH]; simpl; [tauto|].
  destruct (isspace a) eqn:Ha; simpl; [|tauto].
  intros [->|H]; [congruence | now apply IH].
Qed.

Lemma In_strip (c : N) (s : pystr) :
  isspace c = false -> (In c (strip s) <-> In c s).
Proof.
  intro Hc. unfold strip, rstrip. rewrite <- in_rev. split.
  - intro H. apply lstrip_incl in H. rewrite <- in_rev in H.
    now apply lstrip_incl in H.
  - intro H. apply lstrip_keeps; [assumption|]. rewrite <- in_rev.
    now apply lstrip_keeps.
Qed.

Lemma strip_incl (c : N) (s : pystr) : In c (strip s) -> In c s.
Proof.
  unfold strip, rstrip. rewrite <- in_rev. intro H.
  apply lstrip_incl in H. rewrite <- in_rev in H. now apply lstrip_incl in H.
Qed.

Lemma In_join (sep : pystr) (c : N) (parts : list pystr) :
  In c (join sep parts) ->
  In c sep \/ exists p, In p parts /\ In c p.
Proof.
  induction parts as [|p ps IH]; simpl; [tauto|].
  destruct ps as [|q ps].
  - intro H. right. exists p. tauto.
  - rewrite !in_app_iff. intros [H|[H|H]].
    + right. exists p. tauto.
    + now left.
    + destruct (IH H) as [H'|[x [H1 H2]]]; [now left|].
      right. exists x. tauto.
Qed.

Lemma join_In (sep : pystr) (c : N) (parts : list pystr) (p : pystr) :
  In p parts -> In c p -> In c (join sep parts).
Proof.
  induction parts as [|q ps IH]; simpl; [tauto|].
  intros [->|H] Hc.
  - destruct ps; [assumption|]. rewrite in_app_iff. now left.
  - destruct ps as [|q' ps]; [destruct H|].
    rewrite !in_app_iff. right. right. now apply IH.
Qed.

(** The normalisation neither adds nor removes a comma. *)
Lemma normalize_comma (name : pystr) :
  contains COMMA (normalize name) = contains COMMA name.
Proof.
  apply eq_true_iff_eq. rewrite !contains_In. unfold normalize. split.
  - intro H. apply In_join in H. destruct H as [[H|[]]|[p [H1 H2]]].
    + discriminate H.
    + apply in_map_iff in H1. destruct H1 as [seg [<- H1]].
      apply filter_In in H1. destruct H1 as [H1 _].
      apply strip_incl in H2.
      apply (In_split (sep := LF)); [discriminate|]. now exists seg.
  - intro H. apply (In_split (sep := LF)) in H; [|discriminate].
    destruct H as [seg [H1 H2]].
    apply join_In with (p := strip seg).
    + apply in_map. apply filter_In. split; [assumption|].
      destruct seg; [destruct H2 | reflexivity].
    + now apply In_strip.
Qed.

(** The normalised text holds no line feed. *)
Lemma normalize_one_line (name : pystr) : contains LF (normalize name) = false.
Proof.
  apply contains_false. unfold normalize. intro H.
  apply In_join in H. destruct H as [[H|[]]|[p [H1 H2]]].
  - discriminate H.
  - apply in_map_iff in H1. destruct H1 as [seg [<- H1]].
    apply filter_In in H1. destruct H1 as [H1 _].
    apply strip_incl in H2. now apply (split_free _ _ _ H1).
Qed.

(** Where no segment consists of white space only, dropping the empty
    segments before or after stripping gives the same text. *)
Lemma normalize_as_specified (name : pystr) :
  no_blank_segment name = true -> normalize name = spec_normalize name.
Proof.
  unfold no_blank_segment, normalize, spec_normalize. intro H. f_equal.
  induction (split LF name) as [|seg segs IH]; [reflexivity|].
  simpl in H. apply andb_true_iff in H. destruct H as [H1 H2].
  simpl. destruct seg as [|a seg].
  - simpl. now apply IH.
  - simpl in H1. change (nonempty (a :: seg)) with true. cbv iota.
    simpl map. simpl filter. rewrite H1. f_equal. now apply IH.
Qed.

End TextFacts.

(** ** Properties closed under the constructs of the program

    A property of computations that holds of the primitive steps and is
    kept by sequencing and by [try] holds of every function of the
    pipeline up to [json_parser]. *)

Section Closure.

Variable py : Python.
Variable cfg : Config.
Variable server : Server.

Variable P : forall A : Type, M A -> Prop.

Hypothesis P_ret : forall A (a : A), P (ret a).
Hypothesis P_raise : forall A (e : exn), P (@raise A e).
Hypothesis P_exit : forall A (msg : pystr), P (@exit A msg).
Hypothesis P_bind : forall A B (m : M A) (k : A -> M B),
  P m -> (forall a, P (k a)) -> P (bind m k).
Hypothesis P_try : forall A (m : M A) (h : exn -> M A),
  P m -> (forall e, P (h e)) -> P (try_except m h).
Hypothesis P_api : forall params, P (api_handler cfg server params).
Hypothesis P_fuel : forall A, P (@out_of_fuel A).

Lemma P_lift A (r : exn + A) : P (lift r).
Proof. destruct r; simpl; auto. Qed.

Ltac closure :=
  repeat first
    [ apply P_ret | apply P_raise | apply P_exit | apply P_lift | apply P_api
    | apply P_bind; [|intro] | apply P_try; [|intro]
    | match goal with
      | |- P (match ?x with _ => _ end) => destruct x
      end ].

Lemma P_rating_handler rating : P (rating_handler py cfg server rating).
Proof. unfold rating_handler. closure. Qed.

Lemma P_get_length : P (get_length py cfg server).
Proof. unfold get_length. closure. Qed.

Lemma P_record_at json_data count : P (record_at py json_data count).
Proof. unfold record_at. closure. Qed.

Lemma P_visit json_data count movies :
  P (visit py cfg server json_data count movies).
Proof.
  unfold visit.
  repeat first [ apply P_record_at | apply P_rating_handler | apply P_lift
               | apply P_ret | apply P_bind; [|intro] ].
Qed.

Lemma P_pass json_data count movies :
  P (pass py cfg server json_data count movies).
Proof.
  unfold pass. apply P_bind; [apply P_record_at|]. intro r.
  apply P_bind; [apply P_lift|]. intro ws.
  destruct (equals_one py ws); [apply P_visit | apply P_ret].
Qed.

Lemma P_while_loop fuel json_data total_count count movies :
  P (while_loop py cfg server fuel json_data total_count count movies).
Proof.
  revert count movies. induction fuel as [|fuel IH]; intros count movies; simpl.
  - apply P_fuel.
  - apply P_bind; [apply P_lift|]. intros [|]; [|apply P_ret].
    apply P_bind; [apply P_pass|].
    intro movies'. destruct total_count as [t|].
    + destruct (count + 1 =? t)%Z; [apply P_ret | apply IH].
    + apply IH.
Qed.

Lemma P_for_loop passes json_data total_count movies :
  P (for_loop py cfg server passes json_data total_count movies).
Proof.
  revert movies. induction passes as [|passes IH]; intro movies; simpl.
  - apply P_ret.
  - apply P_bind; [apply P_while_loop|]. intros [m n|m]; [apply P_ret | apply IH].
Qed.

Lemma P_json_parser : P (json_parser py cfg server).
Proof.
  unfold json_parser.
  apply P_bind; [apply P_get_length|]. intro total_count.
  apply P_bind; [apply P_api|]. intro json_data.
  apply P_try.
  - apply P_bind; [apply P_lift|]. intro passes. apply P_for_loop.
  - intro e. destruct (is_class (cls e) IndexError); [apply P_exit | apply P_raise].
Qed.

End Closure.

(** ** The monad *)

Section MonadFacts.

Context {A B : Type}.

Lemma bind_ret_inv (m : M A) (k : A -> M B) w b w' :
  bind m k w = (Ret b, w') ->
  exists a w1, m w = (Ret a, w1) /\ k a w1 = (Ret b, w').
Proof.
  unfold bind. destruct (m w) as [[a|e|msg|] w1]; intro H; try discriminate.
  now exists a, w1.
Qed.

Lemma lift_ret_inv (r : exn + A) w a w' :
  lift r w = (Ret a, w') -> r = inr a /\ w' = w.
Proof.
  destruct r as [e|x]; simpl; unfold raise, ret; intro H; inversion H; auto.
Qed.

Lemma bind_eq (m : M A) (k : A -> M B) w a w1 :
  m w = (Ret a, w1) -> bind m k w = k a w1.
Proof. unfold bind. now intros ->. Qed.


Lemma bind_lift (r : exn + A) (k : A -> M B) w a :
  r = inr a -> bind (lift r) k w = k a w.
Proof. now intros ->. Qed.

Lemma bind_stop (m : M A) (k : A -> M B) w o w1 :
  m w = (o, w1) -> (forall a, o <> Ret a) ->
  exists o', bind m k w = (o', w1) /\ exit_message o' = exit_message o /\
             (forall b, o' <> Ret b) /\
             (forall e, o = Raise e -> o' = Raise e) /\
             (o = Fuel -> o' = Fuel).
Proof.
  unfold bind. intros -> Hn. destruct o as [a|e|msg|].
  - now destruct (Hn a).
  - exists (Raise e). repeat split; congruence.
  - exists (Exit msg). repeat split; congruence.
  - exists Fuel. repeat split; congruence.
Qed.

End MonadFacts.

(** ** The output file is out of reach of the parser *)

Section Quiet.

Variable py : Python.
Variable cfg : Config.
Variable server : Server.

Lemma quiet_bind A B (m : M A) (k : A -> M B) :
  quiet m -> (forall a, quiet (k a)) -> quiet (bind m k).
Proof.
  intros Hm Hk w. unfold bind. specialize (Hm w).
  destruct (m w) as [[a|e|msg|] w1]; simpl in *; try assumption.
  now rewrite Hk.
Qed.

Lemma quiet_try A (m : M A) (h : exn -> M A) :
  quiet m -> (forall e, quiet (h e)) -> quiet (try_except m h).
Proof.
  intros Hm Hh w. unfold try_except. specialize (Hm w).
  destruct (m w) as [[a|e|msg|] w1]; simpl in *; try assumption.
  now rewrite Hh.
Qed.

Lemma quiet_api params : quiet (api_handler cfg server params).
Proof.
  intro w. unfold api_handler.
  destruct (server _ _) as [e|j]; [destruct (is_class _ _)|]; reflexivity.
Qed.

Lemma quiet_json_parser : quiet (json_parser py cfg server).
Proof.
  apply (P_json_parser py cfg server (fun A m => @quiet A m)).
  - now intros A a w.
  - now intros A e w.
  - now intros A msg w.
  - intros A B m k. apply quiet_bind.
  - intros A m h. apply quiet_try.
  - apply quiet_api.
  - now intros A w.
Qed.

End Quiet.

(** ** A connection error ends the run at once *)

Section FailFast.

Variable py : Python.
Variable cfg : Config.
Variable server : Server.

Lemma reachable_snoc tr c :
  reachable tr -> conn_error (snd c) = None -> reachable (tr ++ [c]).
Proof.
  intros H1 H2. apply Forall_app. split; [assumption|]. now constructor.
Qed.

Lemma aborted_not_ret A (a : A) tr : ~ aborted_on_last (Ret a) tr.
Proof. intros [tr0 [req [r [t [_ [_ [_ H]]]]]]]. discriminate H. Qed.

Lemma aborted_not_raise A e tr : ~ aborted_on_last (@Raise A e) tr.
Proof. intros [tr0 [req [r [t [_ [_ [_ H]]]]]]]. discriminate H. Qed.

Lemma aborted_transfer A B (o : outcome A) (o' : outcome B) tr :
  exit_message o' = exit_message o ->
  aborted_on_last o tr -> aborted_on_last o' tr.
Proof.
  intros E [tr0 [req [r [t [H1 [H2 [H3 H4]]]]]]].
  exists tr0, req, r, t. rewrite E. auto.
Qed.

Lemma fail_fast_kept A (m : M A) :
  (forall w, calls (snd (m w)) = calls w) -> fail_fast m.
Proof. intros H w Hw. left. now rewrite H. Qed.

Lemma fail_fast_bind A B (m : M A) (k : A -> M B) :
  fail_fast m -> (forall a, fail_fast (k a)) -> fail_fast (bind m k).
Proof.
  intros Hm Hk w Hw. specialize (Hm w Hw). unfold bind.
  destruct (m w) as [[a|e|msg|] w1]; simpl in *.
  - destruct Hm as [Hm|Hm]; [now apply Hk | now apply aborted_not_ret in Hm].
  - destruct Hm as [Hm|Hm]; [now left | now apply aborted_not_raise in Hm].
  - destruct Hm as [Hm|Hm]; [now left|]. right.
    now apply (aborted_transfer (o := @Exit A msg)).
  - destruct Hm as [Hm|Hm]; [now left|]. right.
    now apply (aborted_transfer (o := @Fuel A)).
Qed.

Lemma fail_fast_try A (m : M A) (h : exn -> M A) :
  fail_fast m -> (forall e, fail_fast (h e)) -> fail_fast (try_except m h).
Proof.
  intros Hm Hh w Hw. specialize (Hm w Hw). unfold try_except.
  destruct (m w) as [[a|e|msg|] w1]; simpl in *; try assumption.
  destruct Hm as [Hm|Hm]; [now apply Hh | now apply aborted_not_raise in Hm].
Qed.

Lemma fail_fast_api params : fail_fast (api_handler cfg server params).
Proof.
  intros w Hw. unfold api_handler.
  set (params' := dict_set _ _ params).
  destruct (server (length (calls w)) params') as [e|j] eqn:E.
  - destruct (is_class (cls e) ConnectionError) eqn:C; simpl.
    + right. exists (calls w), params', (inl e), (text e).
      repeat split; [assumption|]. simpl. now rewrite C.
    + left. apply reachable_snoc; [assumption|]. simpl. now rewrite C.
  - simpl. left. now apply reachable_snoc.
Qed.

Lemma fail_fast_json_parser : fail_fast (json_parser py cfg server).
Proof.
  apply (P_json_parser py cfg server (fun A m => @fail_fast A m)).
  - intros A a. now apply fail_fast_kept.
  - intros A e. now apply fail_fast_kept.
  - intros A msg. now apply fail_fast_kept.
  - intros A B m k. apply fail_fast_bind.
  - intros A m h. apply fail_fast_try.
  - apply fail_fast_api.
  - intros A. now apply fail_fast_kept.
Qed.

Lemma fail_fast_writerow fields : fail_fast (writerow py fields).
Proof.
  apply fail_fast_kept. intro w. unfold writerow, write, raise.
  destruct (existsb (existsb (needs_escape py)) fields); [reflexivity|].
  destruct fields as [|[|c f] [|g fs]]; try reflexivity;
    match goal with |- context [forallb encodable ?t] =>
      destruct (forallb encodable t) end; reflexivity.
Qed.

Lemma fail_fast_to_csv : fail_fast (to_csv py cfg server).
Proof.
  unfold to_csv. apply fail_fast_try.
  - apply fail_fast_bind; [apply fail_fast_json_parser|].
    intros [[movies n]|]; [|now apply fail_fast_kept].
    apply fail_fast_bind.
    { apply fail_fast_kept. intro w. unfold open_file.
      now destruct (open_error py). }
    intros _. apply fail_fast_bind.
    { apply fail_fast_kept. intro w. unfold make_writer.
      now destruct (dialect_error py). }
    intros _. apply fail_fast_bind; [apply fail_fast_writerow|].
    intros _. apply fail_fast_writerow.
  - intro e. destruct (is_class (cls e) TypeError); [now apply fail_fast_kept|].
    destruct (is_class (cls e) KeyboardInterrupt); now apply fail_fast_kept.
Qed.

(** C7: whichever request of a run meets a connection error -- the count
    call, the full-history fetch or a rating lookup, all of which go
    through [api_handler] -- the run ends with the exit whose message is
    the text of the error, a line feed and the hint, and that request is
    the last one issued: nothing is sent again or afterwards. *)
Theorem connection_error_is_fatal (w : world) (i : nat) (req : request)
    (r : reply) (t : pystr) :
  reachable (calls w) ->
  nth_error (calls (snd (to_csv py cfg server w))) i = Some (req, r) ->
  conn_error r = Some t ->
  fst (to_csv py cfg server w) = Exit (t ++ [LF] ++ connection_hint) /\
  length (calls (snd (to_csv py cfg server w))) = S i.
Proof.
  intros Hw Hi Hr. destruct (fail_fast_to_csv w Hw) as [H|H].
  - exfalso. unfold reachable in H. rewrite Forall_forall in H.
    apply nth_error_In in Hi. apply H in Hi. simpl in Hi. congruence.
  - destruct H as [tr0 [req' [r' [t' [H1 [H2 [H3 H4]]]]]]].
    rewrite H1 in Hi |- *. rewrite length_app. simpl.
    destruct (Nat.lt_ge_cases i (length tr0)) as [Hlt|Hge].
    + exfalso. rewrite nth_error_app1 in Hi by assumption.
      unfold reachable in H2. rewrite Forall_forall in H2.
      apply nth_error_In in Hi. apply H2 in Hi. simpl in Hi. congruence.
    + rewrite nth_error_app2 in Hi by assumption.
      destruct (i - length tr0) as [|j] eqn:Ej.
      * simpl in Hi. inversion Hi; subst req' r'.
        assert (t' = t) by congruence. subst t'. split; [|lia].
        destruct (fst (to_csv py cfg server w)); simpl in H4; congruence.
      * simpl in Hi. now destruct j.
Qed.

End FailFast.

(** ** The file is written last *)

Section WrittenLast.

Variable py : Python.
Variable cfg : Config.
Variable server : Server.

(** C8: the parser -- count, fetch, rating lookups and rendering -- never
    touches the output file, and when it does not hand a pair to [to_csv]
    (it exited on a connection, credential or index failure, raised, or
    returned nothing) the run ends with the file neither opened nor
    written. *)
Theorem file_untouched_before_write (w : world) :
  io (snd (json_parser py cfg server w)) = io w /\
  (parsed (fst (json_parser py cfg server w)) = false ->
   io (snd (to_csv py cfg server w)) = io w /\
   content (snd (to_csv py cfg server w)) = content w).
Proof.
  pose proof (quiet_json_parser py cfg server w) as Hq.
  split; [assumption|]. intro Hp.
  assert (io (snd (to_csv py cfg server w)) = io w) as H.
  { unfold to_csv, try_except, bind.
    destruct (json_parser py cfg server w) as [[[[m n]|]|e|msg|] w1];
      simpl in *; try discriminate; try assumption.
    destruct (is_class (cls e) TypeError); [assumption|].
    destruct (is_class (cls e) KeyboardInterrupt); assumption. }
  split; [assumption|]. unfold content. now rewrite H.
Qed.

End WrittenLast.

(** ** The loops end *)

Section Total.

Variable py : Python.
Variable cfg : Config.
Variable server : Server.

Lemma total_bind A B (m : M A) (k : A -> M B) :
  total m -> (forall a, total (k a)) -> total (bind m k).
Proof.
  intros Hm Hk w. unfold bind. specialize (Hm w).
  destruct (m w) as [[a|e|msg|] w1]; simpl in *; solve [congruence | apply Hk].
Qed.

Lemma total_bind_lift A B (r : exn + A) (k : A -> M B) :
  (forall a, r = inr a -> total (k a)) -> total (bind (lift r) k).
Proof.
  intros Hk w. destruct r as [e|a]; simpl; [discriminate|]. now apply Hk.
Qed.

Lemma total_try A (m : M A) (h : exn -> M A) :
  total m -> (forall e, total (h e)) -> total (try_except m h).
Proof.
  intros Hm Hh w. unfold try_except. specialize (Hm w).
  destruct (m w) as [[a|e|msg|] w1]; simpl in *; solve [congruence | apply Hh].
Qed.

Lemma total_api params : total (api_handler cfg server params).
Proof.
  intro w. unfold api_handler.
  destruct (server _ _) as [e|j]; [destruct (is_class _ _)|]; discriminate.
Qed.

Lemma total_ret A (a : A) : total (ret a).
Proof. intro w. discriminate. Qed.

Lemma total_raise A (e : exn) : total (@raise A e).
Proof. intro w. discriminate. Qed.

Lemma total_exit A (msg : pystr) : total (@exit A msg).
Proof. intro w. discriminate. Qed.

Lemma total_lift A (r : exn + A) : total (lift r).
Proof. destruct r; [apply total_raise | apply total_ret]. Qed.

Lemma total_get_length : total (get_length py cfg server).
Proof.
  apply (P_get_length py cfg server (fun A m => @total A m));
    auto using total_ret, total_raise, total_exit, total_bind, total_try,
               total_api.
Qed.

Lemma total_record_at json_data count : total (record_at py json_data count).
Proof.
  apply (P_record_at py (fun A m => @total A m));
    auto using total_ret, total_raise, total_bind.
Qed.

Lemma total_pass json_data count movies :
  total (pass py cfg server json_data count movies).
Proof.
  apply (P_pass py cfg server (fun A m => @total A m));
    auto using total_ret, total_raise, total_bind, total_api.
Qed.

Lemma total_while_loop fuel json_data total_count count movies :
  enough fuel total_count count ->
  total (while_loop py cfg server fuel json_data total_count count movies).
Proof.
  revert count movies. induction fuel as [|fuel IH]; intros count movies Hf.
  - destruct total_count; simpl in Hf; lia.
  - simpl. apply total_bind_lift. intros c Hc. destruct c; [|apply total_ret].
    apply total_bind; [apply total_pass|].
    intro movies'. destruct total_count as [t|]; [|discriminate Hc].
    simpl in Hc. injection Hc as Hc. apply Z.leb_le in Hc.
    destruct (count + 1 =? t)%Z; [apply total_ret|].
    apply IH. simpl in *. lia.
Qed.

Lemma enough_budget total_count : enough (budget total_count) total_count 0.
Proof. destruct total_count as [t|]; simpl; lia. Qed.

Lemma total_for_loop passes json_data total_count movies :
  total (for_loop py cfg server passes json_data total_count movies).
Proof.
  revert movies. induction passes as [|passes IH]; intro movies; simpl.
  - apply total_ret.
  - apply total_bind; [apply total_while_loop, enough_budget|].
    intros [m n|m]; [apply total_ret | apply IH].
Qed.

Lemma total_json_parser : total (json_parser py cfg server).
Proof.
  unfold json_parser.
  apply total_bind; [apply total_get_length|]. intro total_count.
  apply total_bind; [apply total_api|]. intro json_data.
  apply total_try.
  - apply total_bind; [apply total_lift|]. intro passes. apply total_for_loop.
  - intro e. destruct (is_class (cls e) IndexError);
      [apply total_exit | apply total_raise].
Qed.

(** Every run of the program ends: with a result, an exception or an
    exit, never by exhausting the loop budget of the model. *)
Lemma total_to_csv : total (to_csv py cfg server).
Proof.
  unfold to_csv. apply total_try.
  - apply total_bind; [apply total_json_parser|].
    intros [[movies n]|]; [|apply total_raise].
    apply total_bind.
    { intro w. unfold open_file. destruct (open_error py); discriminate. }
    intros _. apply total_bind.
    { unfold make_writer. destruct (dialect_error py);
        [apply total_raise | apply total_ret]. }
    assert (forall fields, total (writerow py fields)) as Hw.
    { intros fields w. unfold writerow, write, raise.
      destruct (existsb (existsb (needs_escape py)) fields); [discriminate|].
      destruct fields as [|[|c f] [|g fs]]; try discriminate;
        match goal with |- context [forallb encodable ?t] =>
          destruct (forallb encodable t) end; discriminate. }
    intros _. apply total_bind; [apply Hw|]. intros _. apply Hw.
  - intro e. destruct (is_class (cls e) TypeError); [apply total_exit|].
    destruct (is_class (cls e) KeyboardInterrupt);
      [apply total_exit | apply total_raise].
Qed.

End Total.

(** ** Deduplication *)

Section Dedup.

Variable py : Python.

Lemma str_eqb_eq (a b : pystr) : str_eqb a b = true <-> a = b.
Proof.
  unfold str_eqb. destruct (list_eq_dec N.eq_dec a b); split; congruence.
Qed.

Lemma str_eqb_refl (a : pystr) : str_eqb a a = true.
Proof. now apply str_eqb_eq. Qed.

Lemma member_In (row : pystr) (movies : list pystr) :
  member row movies = true <-> In row movies.
Proof.
  unfold member. rewrite existsb_exists. split.
  - intros [x [H1 H2]]. apply str_eqb_eq in H2. now subst.
  - intro H. exists row. split; [assumption | apply str_eqb_refl].
Qed.

Lemma filter_swap (p q : pystr -> bool) (l : list pystr) :
  filter p (filter q l) = filter q (filter p l).
Proof.
  induction l as [|x xs IH]; [reflexivity|]. simpl.
  destruct (p x) eqn:Ep, (q x) eqn:Eq; simpl; rewrite ?Ep, ?Eq, IH; reflexivity.
Qed.

Lemma filter_absorb (p q : pystr -> bool) (l : list pystr) :
  (forall x, p x = true -> q x = true) ->
  filter p (filter q l) = filter p l.
Proof.
  intro H. induction l as [|x xs IH]; [reflexivity|]. simpl.
  destruct (p x) eqn:Ep.
  - rewrite (H x Ep). simpl. now rewrite Ep, IH.
  - destruct (q x); simpl; now rewrite ?Ep, IH.
Qed.

Lemma first_seen_filter (p : pystr -> bool) (rows : list pystr) :
  first_seen (filter p rows) = filter p (first_seen rows).
Proof.
  induction rows as [|r rs IH]; [reflexivity|]. simpl.
  destruct (p r) eqn:E; simpl; rewrite ?E, IH.
  - f_equal. apply filter_swap.
  - symmetry. apply filter_absorb. intros x Hx.
    destruct (str_eqb x r) eqn:Er; [|reflexivity].
    apply str_eqb_eq in Er. congruence.
Qed.

Lemma offer_all (rows acc : list pystr) :
  fold_left (fun m row => offer row m) rows acc =
  acc ++ first_seen (filter (fun row => negb (member row acc)) rows).
Proof.
  revert acc. induction rows as [|r rs IH]; intro acc; simpl.
  - now rewrite app_nil_r.
  - unfold offer at 2. destruct (member r acc) eqn:E; simpl; [apply IH|].
    rewrite IH, <- app_assoc. simpl. do 2 f_equal.
    rewrite <- first_seen_filter. f_equal. rewrite filter_swap. clear IH.
    induction rs as [|x xs IHx]; [reflexivity|]. simpl.
    unfold member at 1. rewrite existsb_app. simpl. rewrite orb_false_r.
    fold (member x acc).
    destruct (member x acc) eqn:Ex, (str_eqb x r) eqn:Er; simpl;
      rewrite ?Ex; simpl; now rewrite IHx.
Qed.

(** Offering the rows one by one to an empty list leaves the distinct
    rows in first-seen order. *)
Lemma offer_first_seen (rows : list pystr) :
  fold_left (fun m row => offer row m) rows [] = first_seen rows.
Proof.
  rewrite offer_all. simpl. f_equal.
  induction rows as [|r rs IH]; [reflexivity|]. simpl. now rewrite IH.
Qed.

Lemma first_seen_In (rows : list pystr) (row : pystr) :
  In row (first_seen rows) <-> In row rows.
Proof.
  induction rows as [|r rs IH]; simpl; [tauto|].
  rewrite filter_In, IH. split.
  - tauto.
  - intros [->|H]; [now left|].
    destruct (str_eqb row r) eqn:E.
    + apply str_eqb_eq in E. now left.
    + right. split; [assumption | reflexivity].
Qed.

Lemma first_seen_NoDup (rows : list pystr) : NoDup (first_seen rows).
Proof.
  induction rows as [|r rs IH]; simpl; constructor.
  - rewrite filter_In. intros [_ H]. now rewrite str_eqb_refl in H.
  - now apply NoDup_filter.
Qed.

End Dedup.

(** ** What a returning parser has done *)

Section Parser.

Variable py : Python.
Variable cfg : Config.
Variable server : Server.

Lemma record_at_lift json_data count w :
  record_at py json_data count w = lift (record py json_data count) w.
Proof.
  unfold record_at, record, path, records_path, bind. simpl.
  destruct (get_key py json_data (u"response")) as [e|r]; [reflexivity|]. simpl.
  destruct (get_key py r (u"data")) as [e|d]; [reflexivity|]. simpl.
  destruct (get_key py d (u"data")) as [e|l]; reflexivity.
Qed.

Lemma record_at_ret_inv json_data count w r w' :
  record_at py json_data count w = (Ret r, w') ->
  record py json_data count = inr r /\ w' = w.
Proof. rewrite record_at_lift. apply lift_ret_inv. Qed.

(** A record that has a field was taken from a list of records. *)
Lemma record_array json_data count r k v :
  record py json_data count = inr r -> get_key py r k = inr v ->
  (0 <= count)%Z ->
  exists l, path py json_data records_path = inr (JArr l) /\
            nth_error l (Z.to_nat count) = Some r.
Proof.
  unfold record. intros H Hk Hc.
  destruct (path py json_data records_path) as [e|x]; [discriminate|].
  destruct x; unfold get_index, fail in H; try discriminate.
  - destruct (count <? 0)%Z eqn:E; [apply Z.ltb_lt in E; lia|].
    destruct ((0 <=? count) && (count <? len s))%Z; [|discriminate].
    injection H as <-. discriminate Hk.
  - destruct (count <? 0)%Z eqn:E; [apply Z.ltb_lt in E; lia|].
    destruct ((0 <=? count) && (count <? len items))%Z eqn:E2; [|discriminate].
    injection H as <-. exists items. split; [reflexivity|].
    apply andb_true_iff in E2. destruct E2 as [_ E2]. apply Z.ltb_lt in E2.
    apply nth_error_nth'. unfold len in E2. lia.
Qed.

Lemma api_handler_inv params w o w' :
  api_handler cfg server params w = (o, w') ->
  exists req r, calls w' = calls w ++ [(req, r)] /\ io w' = io w /\
                (forall j, o = Ret j -> r = inr j).
Proof.
  unfold api_handler. set (req := dict_set _ _ params).
  destruct (server (length (calls w)) req) as [e|j] eqn:E.
  - destruct (is_class (cls e) ConnectionError); intro H; inversion H; subst;
      exists req, (inl e); simpl; repeat split; discriminate.
  - intro H. inversion H; subst. exists req, (inr j). simpl.
    repeat split. congruence.
Qed.

(** [rating_handler] issues exactly one request. *)
Lemma rating_handler_calls rating w :
  exists c, calls (snd (rating_handler py cfg server rating w)) = calls w ++ [c].
Proof.
  unfold rating_handler, bind.
  destruct (api_handler cfg server _ w) as [o w1] eqn:E.
  apply api_handler_inv in E. destruct E as [req [r [E _]]].
  exists (req, r). rewrite <- E.
  destruct o as [j|e|msg|]; try reflexivity.
  destruct (iterations py j) as [e|[|n]]; try reflexivity. simpl.
  destruct (get_key py j (u"response")) as [e|x]; try reflexivity. simpl.
  destruct (get_key py x (u"data")) as [e|d]; try reflexivity. simpl.
  destruct (negb (truthy py d)); try reflexivity.
  destruct (get_key py d (u"user_rating")); reflexivity.
Qed.

(** [rating_handler] is one request and what lines 57-63 make of its
    response. *)
Lemma rating_handler_eq rating w :
  rating_handler py cfg server rating w =
  (match server (length (calls w)) (metadata_request cfg rating) with
   | inr j => match rating_of py j with inr v => Ret v | inl e => Raise e end
   | inl e => if is_class (cls e) ConnectionError
              then Exit (text e ++ [LF] ++ connection_hint)
              else Raise e
   end,
   after w (metadata_request cfg rating)
     (server (length (calls w)) (metadata_request cfg rating))).
Proof.
  unfold rating_handler, bind, api_handler, rating_of, after.
  fold (metadata_request cfg rating).
  destruct (server (length (calls w)) (metadata_request cfg rating)) as [e|j].
  - now destruct (is_class (cls e) ConnectionError).
  - destruct (iterations py j) as [e|[|n]]; try reflexivity.
    unfold path, payload_path. simpl.
    destruct (get_key py j (u"response")) as [e|r]; try reflexivity. simpl.
    destruct (get_key py r (u"data")) as [e|d]; try reflexivity. simpl.
    destruct (negb (truthy py d)); try reflexivity.
    now destruct (get_key py d (u"user_rating")).
Qed.

Lemma numbered_cons base r recs :
  numbered base (r :: recs) = (base, r) :: numbered (S base) recs.
Proof. reflexivity. Qed.

Lemma numbered_app base a b :
  numbered base (a ++ b) = numbered base a ++ numbered (base + length a) b.
Proof.
  revert base. induction a as [|x a IH]; intro base.
  - simpl. now rewrite Nat.add_0_r.
  - simpl app. rewrite !numbered_cons, IH. simpl.
    now rewrite Nat.add_succ_r.
Qed.

Lemma candidates_length base recs rows :
  candidates py cfg server base recs rows -> length rows = length recs.
Proof.
  intro H. apply Forall2_length in H. unfold numbered in H.
  rewrite length_combine, length_seq, Nat.min_id in H. now symmetry.
Qed.

Lemma candidates_app base a b rows1 rows2 :
  candidates py cfg server base a rows1 ->
  candidates py cfg server (base + length a) b rows2 ->
  candidates py cfg server base (a ++ b) (rows1 ++ rows2).
Proof.
  unfold candidates. intros H1 H2. rewrite numbered_app.
  now apply Forall2_app.
Qed.

Lemma visit_ret_inv json_data count movies w movies' w' :
  visit py cfg server json_data count movies w = (Ret movies', w') ->
  exists r row c,
    record py json_data count = inr r /\
    candidate py cfg server (length (calls w)) r row /\
    movies' = offer row movies /\
    calls w' = calls w ++ [c].
Proof.
  unfold visit. intro H.
  apply bind_ret_inv in H. destruct H as [r [w1 [H1 H]]].
  apply record_at_ret_inv in H1. destruct H1 as [Hr ->].
  apply bind_ret_inv in H. destruct H as [t [w1 [H1 H]]].
  apply lift_ret_inv in H1. destruct H1 as [Ht ->].
  apply bind_ret_inv in H. destruct H as [r2 [w1 [H1 H]]].
  apply record_at_ret_inv in H1. destruct H1 as [Hr2 ->].
  assert (r2 = r) by congruence. subst r2.
  apply bind_ret_inv in H. destruct H as [y [w1 [H1 H]]].
  apply lift_ret_inv in H1. destruct H1 as [Hy ->].
  apply bind_ret_inv in H. destruct H as [r3 [w1 [H1 H]]].
  apply record_at_ret_inv in H1. destruct H1 as [Hr3 ->].
  assert (r3 = r) by congruence. subst r3.
  apply bind_ret_inv in H. destruct H as [k [w1 [H1 H]]].
  apply lift_ret_inv in H1. destruct H1 as [Hk ->].
  apply bind_ret_inv in H. destruct H as [rating [w1 [Hrate H]]].
  apply bind_ret_inv in H. destruct H as [r4 [w2 [H1 H]]].
  apply record_at_ret_inv in H1. destruct H1 as [Hr4 ->].
  assert (r4 = r) by congruence. subst r4.
  apply bind_ret_inv in H. destruct H as [d [w2 [H1 H]]].
  apply lift_ret_inv in H1. destruct H1 as [Hd ->].
  apply bind_ret_inv in H. destruct H as [z [w2 [H1 H]]].
  apply lift_ret_inv in H1. destruct H1 as [Hz ->].
  apply bind_ret_inv in H. destruct H as [date [w2 [H1 H]]].
  apply lift_ret_inv in H1. destruct H1 as [Hdate ->].
  unfold ret in H. inversion H; subst.
  rewrite rating_handler_eq in Hrate.
  destruct (server (length (calls w)) (metadata_request cfg (py_str py k)))
    as [e|j] eqn:Es.
  { destruct (is_class (cls e) ConnectionError); discriminate Hrate. }
  destruct (rating_of py j) as [e|v] eqn:Ev; [discriminate Hrate|].
  injection Hrate as <- <-.
  exists r, (row_text py (render_title (py_str py t)) (py_str py y) v date),
         (metadata_request cfg (py_str py k), inr j).
  repeat split; try assumption.
  exists t, y, k, d, z, date, j, v. tauto.
Qed.

Lemma skipn_nth_error (l : list json) (k : nat) (r : json) :
  nth_error l k = Some r -> skipn k l = r :: skipn (S k) l.
Proof.
  revert k. induction l as [|x xs IH]; intros [|k] H; try discriminate.
  - simpl in H. now injection H as ->.
  - simpl in H. simpl. rewrite (IH k H). reflexivity.
Qed.

(** One pass of the loop over the record at [count]. *)
Lemma pass_ret_inv json_data count movies w movies1 w1 :
  pass py cfg server json_data count movies w = (Ret movies1, w1) ->
  exists r ws rows0 new0,
    record py json_data count = inr r /\
    get_key py r (u"watched_status") = inr ws /\
    candidates py cfg server (length (calls w)) (filter (watched py) [r]) rows0 /\
    movies1 = fold_left (fun acc row => offer row acc) rows0 movies /\
    calls w1 = calls w ++ new0 /\ length new0 = length rows0.
Proof.
  unfold pass. intro H.
  apply bind_ret_inv in H. destruct H as [r [w0 [H1 H]]].
  apply record_at_ret_inv in H1. destruct H1 as [Hr ->].
  apply bind_ret_inv in H. destruct H as [ws [w0 [H1 H]]].
  apply lift_ret_inv in H1. destruct H1 as [Hws ->].
  assert (watched py r = equals_one py ws) as Hwatched
    by (unfold watched; now rewrite Hws).
  destruct (equals_one py ws).
  - apply visit_ret_inv in H. destruct H as [r' [row [c [Hr' [Hc [Hm Hw]]]]]].
    assert (r' = r) by congruence. subst r'.
    exists r, ws, [row], [c]. unfold candidates. simpl. rewrite Hwatched.
    repeat split; try assumption. now repeat constructor.
  - unfold ret in H. inversion H; subst.
    exists r, ws, [], []. unfold candidates. simpl. rewrite Hwatched.
    repeat split; try assumption; [constructor | now rewrite app_nil_r].
Qed.

Lemma while_returns fuel json_data t :
  forall count movies w m n w',
  while_loop py cfg server fuel json_data (Some t) count movies w
    = (Ret (Returned m n), w') ->
  (0 <= count)%Z ->
  (count < t)%Z /\
  exists l rows new,
    path py json_data records_path = inr (JArr l) /\ (t <= len l)%Z /\
    candidates py cfg server (length (calls w))
      (filter (watched py)
         (firstn (Z.to_nat (t - count)) (skipn (Z.to_nat count) l))) rows /\
    m = fold_left (fun acc row => offer row acc) rows movies /\
    n = len m /\
    calls w' = calls w ++ new /\ length new = length rows.
Proof.
  induction fuel as [|fuel IH]; intros count movies w m n w' H Hc.
  - discriminate H.
  - simpl in H.
    apply bind_ret_inv in H. destruct H as [c [w0 [H1 H]]].
    unfold ret in H1. injection H1 as Hle <-.
    destruct c; [|discriminate H]. apply Z.leb_le in Hle.
    apply bind_ret_inv in H. destruct H as [movies1 [w1 [Hpass H]]].
    destruct (pass_ret_inv _ _ _ _ Hpass)
      as [r [ws [rows0 [new0 [Hr [Hws [Hrows0 [Hm1 [Hw1 Hlen0]]]]]]]]].
    destruct (record_array _ _ Hr Hws Hc) as [l [Hl Hnth]].
    assert (Z.to_nat count < length l)%nat as Hlt
      by (apply nth_error_Some; congruence).
    pose proof (skipn_nth_error _ _ Hnth) as Hskip.
    pose proof (candidates_length Hrows0) as Hl0.
    destruct (Z.eqb_spec (count + 1) t) as [Heq|Hne].
    + unfold ret in H. inversion H; subst m n w'. split; [lia|].
      exists l, rows0, new0. repeat split; try assumption.
      * unfold len. lia.
      * replace (Z.to_nat (t - count)) with 1%nat by lia.
        rewrite Hskip. exact Hrows0.
    + apply IH in H; [|lia].
      destruct H as [Hlt' [l' [rows [new [Hl' [Ht [Hrows [Hm [Hn [Hw Hlen]]]]]]]]]].
      assert (l' = l) by congruence. subst l'. split; [lia|].
      exists l, (rows0 ++ rows), (new0 ++ new). repeat split; try assumption.
      * replace (Z.to_nat (t - count)) with (S (Z.to_nat (t - (count + 1))))
          by lia.
        replace (S (Z.to_nat count)) with (Z.to_nat (count + 1)) in Hskip
          by lia.
        rewrite Hskip, firstn_cons.
        change (r :: ?x) with ([r] ++ x). rewrite filter_app.
        apply candidates_app; [assumption|].
        rewrite Hw1, length_app, Hlen0, Hl0 in Hrows. exact Hrows.
      * rewrite fold_left_app. now rewrite <- Hm1.
      * rewrite Hw, Hw1. now rewrite app_assoc.
      * rewrite !length_app. lia.
Qed.

(** With a count below 1 the [return] of line 119 is never reached. *)
Lemma while_no_return fuel json_data t :
  forall count movies w m n w',
  (t <= count)%Z ->
  while_loop py cfg server fuel json_data (Some t) count movies w
    <> (Ret (Returned m n), w').
Proof.
  induction fuel as [|fuel IH]; intros count movies w m n w' Hc H.
  - discriminate H.
  - simpl in H.
    apply bind_ret_inv in H. destruct H as [c [w0 [H1 H]]].
    unfold ret in H1. injection H1 as Hle <-.
    destruct c; [|discriminate H].
    apply bind_ret_inv in H. destruct H as [movies1 [w2 [_ H]]].
    destruct (Z.eqb_spec (count + 1) t) as [Heq|Hne]; [lia|].
    apply IH in H; [assumption | lia].
Qed.

Lemma for_loop_returns passes json_data total_count :
  forall w m n w',
  for_loop py cfg server passes json_data total_count [] w
    = (Ret (Some (m, n)), w') ->
  exists t, total_count = Some t /\ (1 <= t)%Z /\
    while_loop py cfg server (budget total_count) json_data total_count 0 [] w
      = (Ret (Returned m n), w').
Proof.
  destruct total_count as [t|].
  - destruct (Z.le_gt_cases t 0) as [Hle|Hgt].
    + (* no pass returns *)
      assert (forall passes movies w m n w',
                 for_loop py cfg server passes json_data (Some t) movies w
                 <> (Ret (Some (m, n)), w')) as Hnone.
      { clear passes. induction passes as [|passes IH]; intros movies w m n w' H.
        - discriminate H.
        - simpl in H. apply bind_ret_inv in H. destruct H as [f [w1 [H1 H]]].
          destruct f as [m1 n1|m1].
          + now apply while_no_return in H1.
          + now apply IH in H. }
      intros w m n w' H. now apply Hnone in H.
    + intros w m n w' H. exists t. split; [reflexivity|]. split; [lia|].
      destruct passes as [|passes]; [discriminate H|].
      simpl in H. apply bind_ret_inv in H. destruct H as [f [w1 [H1 H]]].
      destruct f as [m1 n1|m1].
      * unfold ret in H. inversion H; subst. exact H1.
      * exfalso. clear H.
        (* entered below the count, the loop is not left by its condition *)
        assert (forall fuel count movies w f w',
                   (count < t)%Z ->
                   while_loop py cfg server fuel json_data (Some t) count movies w
                   = (Ret f, w') -> exists m n, f = Returned m n) as Hret.
        { induction fuel as [|fuel IH]; intros count movies w0 f w3 Hc H.
          - discriminate H.
          - simpl in H.
            apply bind_ret_inv in H. destruct H as [c [w2 [H2 H]]].
            unfold ret in H2. injection H2 as Hle <-.
            destruct c; [|apply Z.leb_gt in Hle; lia].
            apply bind_ret_inv in H. destruct H as [movies1 [w6 [_ H]]].
            destruct (Z.eqb_spec (count + 1) t) as [Heq|Hne].
            + unfold ret in H. inversion H. now eauto.
            + apply IH in H; [assumption | lia]. }
        apply Hret in H1; [|lia]. destruct H1 as [m' [n' H1]]. discriminate H1.
  - intros w m n w' H. exfalso.
    destruct passes as [|passes]; [discriminate H|].
    simpl in H. apply bind_ret_inv in H. destruct H as [f [w1 [H1 H]]].
    apply bind_ret_inv in H1. destruct H1 as [c [w2 [H2 _]]].
    discriminate H2.
Qed.

Lemma get_length_ret_inv w total_count w1 :
  get_length py cfg server w = (Ret total_count, w1) ->
  exists req j,
    calls w1 = calls w ++ [(req, inr j)] /\
    forall t, total_count = Some t ->
      exists x, path py j count_path = inr x /\ py_int py x = inr t.
Proof.
  unfold get_length. intro H.
  apply bind_ret_inv in H. destruct H as [j [wa [Hapi H]]].
  apply api_handler_inv in Hapi. destruct Hapi as [req [r [Hcalls [_ Hr]]]].
  rewrite (Hr j eq_refl) in Hcalls. clear Hr.
  apply bind_ret_inv in H. destruct H as [n [wb [H1 H]]].
  apply lift_ret_inv in H1. destruct H1 as [_ ->].
  exists req, j. destruct n as [|n].
  - unfold ret in H. inversion H; subst. split; [assumption | discriminate].
  - unfold try_except in H.
    match type of H with
    | (match ?c wa with _ => _ end) = _ => destruct (c wa) as [o w2] eqn:E
    end.
    destruct o as [a|e|msg|]; try discriminate.
    + inversion H; subst a w2. clear H.
      apply bind_ret_inv in E. destruct E as [r1 [w3 [H1 E]]].
      apply lift_ret_inv in H1. destruct H1 as [Hr1 ->].
      apply bind_ret_inv in E. destruct E as [d [w3 [H1 E]]].
      apply lift_ret_inv in H1. destruct H1 as [Hd ->].
      apply bind_ret_inv in E. destruct E as [x [w3 [H1 E]]].
      apply lift_ret_inv in H1. destruct H1 as [Hx ->].
      apply bind_ret_inv in E. destruct E as [z [w3 [H1 E]]].
      apply lift_ret_inv in H1. destruct H1 as [Hz ->].
      unfold ret in E. inversion E; subst. split; [assumption|].
      intros t Ht. injection Ht as <-. exists x. split; [|assumption].
      unfold path, count_path. simpl. now rewrite Hr1, Hd.
    + destruct (is_class (cls e) KeyError); discriminate H.
Qed.

(** A parser that returns a pair was told a count of at least 1, found
    that many records in the fetched list, built one candidate row for
    each of the first [t] records that is watched, in order, with one
    rating lookup each, and returns the distinct rows in first-seen order
    with their number. *)
Lemma json_parser_returns w m n w' :
  json_parser py cfg server w = (Ret (Some (m, n)), w') ->
  exists t l rows,
    fetched py w w' t l /\ (1 <= t <= len l)%Z /\
    candidates py cfg server (length (calls w) + 2)
               (filter (watched py) (firstn (Z.to_nat t) l)) rows /\
    m = first_seen rows /\ n = len m /\
    length (calls w') = (length (calls w) + 2 + length rows)%nat.
Proof.
  unfold json_parser. intro H.
  apply bind_ret_inv in H. destruct H as [tc [w1 [Hlen H]]].
  apply get_length_ret_inv in Hlen. destruct Hlen as [req1 [j1 [Hc1 Hcount]]].
  apply bind_ret_inv in H. destruct H as [json_data [w2 [Hapi H]]].
  apply api_handler_inv in Hapi. destruct Hapi as [req2 [r2 [Hc2 [_ Hr2]]]].
  rewrite (Hr2 json_data eq_refl) in Hc2. clear Hr2.
  unfold try_except in H.
  match type of H with
  | (match ?c w2 with _ => _ end) = _ => destruct (c w2) as [o w3] eqn:E
  end.
  destruct o as [a|e|msg|]; try discriminate.
  2: { destruct (is_class (cls e) IndexError); discriminate H. }
  inversion H; subst a w3. clear H.
  apply bind_ret_inv in E. destruct E as [passes [w3 [H1 E]]].
  apply lift_ret_inv in H1. destruct H1 as [_ ->].
  apply for_loop_returns in E. destruct E as [t [-> [Ht E]]].
  apply while_returns in E; [|lia].
  destruct E as [_ [l [rows [new [Hl [Htl [Hrows [Hm [Hn [Hw Hnew]]]]]]]]]].
  destruct (Hcount t eq_refl) as [x [Hx Hz]].
  rewrite Z.sub_0_r in Hrows. simpl skipn in Hrows.
  rewrite offer_first_seen in Hm.
  replace (length (calls w2)) with (length (calls w) + 2)%nat in Hrows
    by (rewrite Hc2, Hc1, !length_app; simpl; lia).
  exists t, l, rows. repeat split; try assumption.
  - exists req1, j1, x, req2, json_data.
    rewrite Hw, Hc2, Hc1. repeat split; try assumption.
    + rewrite <- !app_assoc. rewrite nth_error_app2 by lia.
      now rewrite Nat.sub_diag.
    + rewrite <- !app_assoc. rewrite nth_error_app2 by lia.
      replace (S (length (calls w)) - length (calls w))%nat with 1%nat by lia.
      reflexivity.
  - rewrite Hw, Hc2, Hc1, !length_app. simpl. lia.
Qed.

End Parser.

(** ** The title *)

Section Title.

(** The normalisation of the specification neither adds nor removes a
    comma. *)
Lemma spec_normalize_comma (name : pystr) :
  contains COMMA (spec_normalize name) = contains COMMA name.
Proof.
  apply eq_true_iff_eq. rewrite !contains_In. unfold spec_normalize. split.
  - intro H. apply In_join in H. destruct H as [[H|[]]|[p [H1 H2]]].
    + discriminate H.
    + apply filter_In in H1. destruct H1 as [H1 _].
      apply in_map_iff in H1. destruct H1 as [seg [<- H1]].
      apply strip_incl in H2.
      apply (In_split (sep := LF)); [discriminate|]. now exists seg.
  - intro H. apply (In_split (sep := LF)) in H; [|discriminate].
    destruct H as [seg [H1 H2]].
    assert (In COMMA (strip seg)) as H3 by now apply In_strip.
    apply join_In with (p := strip seg); [|assumption].
    apply filter_In. split; [now apply in_map|].
    destruct (strip seg); [destruct H3 | reflexivity].
Qed.

(** C3, as the code has it: the normalised title contains a comma exactly
    when the raw title does, and the title is quoted exactly then. The
    quoted text is the title split on line feeds, the empty segments
    dropped, the others stripped and joined with single spaces, between
    two double quotes; it is the normalised title of the specification
    between two double quotes whenever no segment is white space only. A
    title without a comma is emitted as it is, with no quote added. *)
Theorem title_quoted_iff_comma (name : pystr) :
  contains COMMA (spec_normalize name) = contains COMMA name /\
  (contains COMMA (spec_normalize name) = true ->
     render_title name
       = [DQUOTE] ++ join [SPACE] (map strip (filter nonempty (split LF name)))
           ++ [DQUOTE] /\
     (no_blank_segment name = true ->
        render_title name = [DQUOTE] ++ spec_normalize name ++ [DQUOTE])) /\
  (contains COMMA (spec_normalize name) = false -> render_title name = name).
Proof.
  pose proof (spec_normalize_comma name) as Hc.
  split; [assumption|]. rewrite Hc. unfold render_title.
  split; intros ->; [|reflexivity].
  split; [reflexivity|]. intro H. now rewrite normalize_as_specified.
Qed.

Lemma title_quoted_iff_comma_witness :
  render_title (u"Movie, The Sequel")
    = [DQUOTE] ++ u"Movie, The Sequel" ++ [DQUOTE] /\
  render_title (u"Clean Title") = u"Clean Title".
Proof.
  split.
  - destruct (title_quoted_iff_comma (u"Movie, The Sequel")) as [_ [H _]].
    destruct (H eq_refl) as [_ H']. now rewrite (H' eq_refl).
  - destruct (title_quoted_iff_comma (u"Clean Title")) as [_ [_ H]].
    exact (H eq_refl).
Defined.

(** A title with a comma and a segment of white space only: the segment
    is not dropped but stripped to nothing, so the quoted text has two
    spaces where the normalised title of the specification has one. *)
Lemma blank_segment_leaves_two_spaces :
  contains COMMA (spec_normalize blank_segment_title) = true /\
  spec_normalize blank_segment_title = u"A, B" /\
  render_title blank_segment_title = [DQUOTE] ++ u"A,  B" ++ [DQUOTE] /\
  render_title blank_segment_title
    <> [DQUOTE] ++ spec_normalize blank_segment_title ++ [DQUOTE].
Proof. repeat split. discriminate. Qed.

(** C2, as the code has it: only a title with a comma is normalised --
    split on line feeds, empty segments dropped, the others stripped and
    joined with single spaces, the result free of line feeds and placed
    between double quotes; a title without a comma is placed in the row
    unchanged, embedded line feeds included. Where no segment is white
    space only, the normalisation is the one the specification words. *)
Theorem title_normalized_when_comma (name : pystr) :
  (contains COMMA name = true ->
     render_title name
       = [DQUOTE] ++ join [SPACE] (map strip (filter nonempty (split LF name)))
           ++ [DQUOTE] /\
     contains LF (render_title name) = false /\
     (no_blank_segment name = true ->
        render_title name = [DQUOTE] ++ spec_normalize name ++ [DQUOTE])) /\
  (contains COMMA name = false -> render_title name = name).
Proof.
  unfold render_title. split; intros ->; [|reflexivity].
  split; [reflexivity|]. split.
  - apply contains_false. intro H. simpl in H. destruct H as [H|H]; [discriminate|].
    apply in_app_or in H. destruct H as [H|[H|[]]]; [|discriminate].
    apply contains_In in H. now rewrite normalize_one_line in H.
  - intro H. now rewrite normalize_as_specified.
Qed.

Lemma title_normalized_when_comma_witness :
  render_title two_line_comma_title
    = [DQUOTE] ++ u"Line One, Line Two" ++ [DQUOTE].
Proof.
  destruct (title_normalized_when_comma two_line_comma_title) as [H _].
  destruct (H eq_refl) as [_ [_ H']].
  now rewrite (H' eq_refl).
Defined.

(** The title of the specification's example has no comma and is
    rendered as it came, not as the normalised text. *)
Lemma title_not_normalized_without_comma :
  spec_normalize two_line_title = u"Line One Line Two" /\
  render_title two_line_title = two_line_title /\
  render_title two_line_title <> spec_normalize two_line_title.
Proof. repeat split. discriminate. Qed.

End Title.

(** ** The written file *)

Section Written.

Variable py : Python.
Variable cfg : Config.
Variable server : Server.

Lemma split_free_id (sep : N) (a : pystr) : ~ In sep a -> split sep a = [a].
Proof.
  induction a as [|c a IH]; simpl; [reflexivity|]. intro H.
  destruct (N.eqb_spec c sep) as [->|Hc]; [tauto|].
  rewrite IH by tauto. reflexivity.
Qed.

Lemma split_app_sep (sep : N) (a b : pystr) :
  ~ In sep a -> split sep (a ++ sep :: b) = a :: split sep b.
Proof.
  induction a as [|c a IH]; simpl; intro H.
  - now rewrite N.eqb_refl.
  - destruct (N.eqb_spec c sep) as [->|Hc]; [tauto|].
    rewrite IH by tauto. reflexivity.
Qed.

Lemma chomp_cr (a : pystr) : chomp (a ++ [CR]) = a.
Proof. unfold chomp. rewrite rev_app_distr. simpl. apply rev_involutive. Qed.

Lemma chomp_free (a : pystr) : ~ In CR a -> chomp a = a.
Proof.
  unfold chomp. intro H. destruct (rev a) as [|c r] eqn:E; [reflexivity|].
  destruct (N.eqb_spec c CR) as [->|Hc]; [|reflexivity].
  exfalso. apply H. apply in_rev. rewrite E. now left.
Qed.

Lemma split_rows (r : pystr) (rows : list pystr) :
  Forall (fun row => ~ In LF row) (r :: rows) ->
  split LF (join [LF] (r :: rows) ++ [CR; LF]) = marked (r :: rows) ++ [[]].
Proof.
  revert r. induction rows as [|r' rows IH]; intros r H.
  - simpl join. inversion H; subst.
    change (r ++ [CR; LF]) with (r ++ [CR] ++ LF :: []).
    rewrite app_assoc, split_app_sep.
    + reflexivity.
    + intro Hin. apply in_app_or in Hin. destruct Hin as [Hin|[Hin|[]]];
        [tauto | discriminate].
  - inversion H; subst.
    change (join [LF] (r :: r' :: rows)) with (r ++ LF :: join [LF] (r' :: rows)).
    rewrite <- app_assoc, <- app_comm_cons.
    rewrite split_app_sep by assumption.
    rewrite IH by assumption. reflexivity.
Qed.

Lemma chomp_marked (rows : list pystr) :
  Forall (fun row => ~ In CR row) rows -> map chomp (marked rows) = rows.
Proof.
  induction rows as [|r rows IH]; intro H; [reflexivity|].
  inversion H; subst. destruct rows as [|r' rows].
  - simpl. now rewrite chomp_cr.
  - change (marked (r :: r' :: rows)) with (r :: marked (r' :: rows)).
    rewrite map_cons, IH by assumption. now rewrite chomp_free.
Qed.

(** The lines of the file the two writes of [to_csv] leave. *)
Lemma lines_written (movies : list pystr) :
  existsb (existsb (needs_escape py)) movies = false ->
  file_lines (header ++ [CR; LF] ++ join [LF] movies ++ [CR; LF]) =
  header :: match movies with [] => [[]] | _ => movies end.
Proof.
  intro H.
  assert (Forall (fun row => ~ In LF row) movies /\
          Forall (fun row => ~ In CR row) movies) as [HLF HCR].
  { split; apply Forall_forall; intros row Hrow Hin;
      (assert (existsb (existsb (needs_escape py)) movies = true) as Ht;
       [|congruence]);
      apply existsb_exists; exists row; (split; [assumption|]);
      apply existsb_exists; eexists; (split; [exact Hin|]);
      unfold needs_escape; simpl; reflexivity. }
  assert (~ In LF (header ++ [CR])) as Hh
    by (apply contains_false; reflexivity).
  change (header ++ [CR; LF] ++ join [LF] movies ++ [CR; LF])
    with (header ++ [CR] ++ LF :: (join [LF] movies ++ [CR; LF])).
  rewrite app_assoc. unfold file_lines. rewrite split_app_sep by assumption.
  destruct movies as [|r rows].
  - vm_compute. reflexivity.
  - rewrite split_rows by assumption.
    change ((header ++ [CR]) :: marked (r :: rows) ++ [[]])
      with (((header ++ [CR]) :: marked (r :: rows)) ++ [[]]).
    set (pieces := (header ++ [CR]) :: marked (r :: rows)).
    rewrite rev_app_distr.
    change (rev [[]] ++ rev pieces) with (([] : pystr) :: rev pieces).
    cbv iota beta. rewrite rev_involutive. subst pieces.
    rewrite map_cons, chomp_cr. f_equal. apply (chomp_marked HCR).
Qed.

Lemma translate_app (ls a b : pystr) :
  translate ls (a ++ b) = translate ls a ++ translate ls b.
Proof.
  induction a as [|c a IH]; [reflexivity|]. simpl.
  now rewrite IH, app_assoc.
Qed.

Lemma translate_lf (t : pystr) : translate [LF] t = t.
Proof.
  induction t as [|c t IH]; [reflexivity|]. simpl. rewrite IH.
  now destruct (N.eqb_spec c LF) as [->|_].
Qed.

Lemma writerow_ret_inv fields w w' :
  writerow py fields w = (Ret tt, w') ->
  existsb (existsb (needs_escape py)) fields = false /\
  io w' = io w ++ [Write (translate (linesep py)
                            (join [LF] fields ++ [CR; LF]))] /\
  calls w' = calls w.
Proof.
  unfold writerow, write, raise.
  destruct (existsb (existsb (needs_escape py)) fields); [discriminate|].
  destruct fields as [|[|c f] [|g fs]]; try discriminate;
    match goal with |- context [forallb encodable ?t] =>
      destruct (forallb encodable t) end;
    intro H; inversion H; subst; simpl; auto.
Qed.

Lemma content_from_app ops1 ops2 acc :
  content_from (ops1 ++ ops2) acc = content_from ops2 (content_from ops1 acc).
Proof.
  revert acc. induction ops1 as [|[|t] ops1 IH]; intro acc; simpl; auto.
Qed.

Lemma to_csv_ret_inv w w' :
  to_csv py cfg server w = (Ret tt, w') ->
  exists m n w1,
    json_parser py cfg server w = (Ret (Some (m, n)), w1) /\
    calls w' = calls w1 /\
    existsb (existsb (needs_escape py)) m = false /\
    content w' = Some (translate (linesep py)
                         (header ++ [CR; LF] ++ join [LF] m ++ [CR; LF])).
Proof.
  unfold to_csv, try_except. intro H.
  match type of H with
  | (match ?c w with _ => _ end) = _ => destruct (c w) as [o w2] eqn:E
  end.
  destruct o as [[]|e|msg|]; try discriminate.
  2: { destruct (is_class (cls e) TypeError); [discriminate|].
       destruct (is_class (cls e) KeyboardInterrupt); discriminate. }
  inversion H; subst w2. clear H.
  apply bind_ret_inv in E. destruct E as [r [w1 [Hp E]]].
  destruct r as [[m n]|]; [|discriminate E].
  exists m, n, w1. split; [assumption|].
  apply bind_ret_inv in E. destruct E as [[] [w2 [Ho E]]].
  apply bind_ret_inv in E. destruct E as [[] [w3 [Hd E]]].
  apply bind_ret_inv in E. destruct E as [[] [w4 [Hh E]]].
  unfold open_file in Ho. destruct (open_error py); [discriminate|].
  inversion Ho; subst w2. clear Ho.
  unfold make_writer in Hd. destruct (dialect_error py); [discriminate|].
  inversion Hd; subst w3. clear Hd.
  apply writerow_ret_inv in Hh. destruct Hh as [_ [Hio4 Hc4]].
  apply writerow_ret_inv in E. destruct E as [Hm [Hio Hc]].
  cbn [io calls] in *. change (join [LF] [header]) with header in Hio4.
  split; [congruence|]. split; [assumption|].
  unfold content. rewrite Hio, Hio4. rewrite <- !app_assoc.
  rewrite content_from_app. cbn [app content_from].
  now rewrite <- translate_app, <- app_assoc.
Qed.

(** C1, as the code has it: after a run that completes, the text given
    to the file is the header terminated by CR LF, then the distinct
    candidate rows of the watched records among the first [t] fetched, in
    first-seen order, separated by LF and closed by CR LF, every line feed
    of it reaching the file as the line separator of the host; no row
    occurs twice. Where that separator is LF, the lines of the file are
    the header and one line per distinct row when there is at least one
    row, and the header and one empty line when there is none. *)
Theorem csv_lines_are_header_and_distinct_rows (w w' : world) :
  to_csv py cfg server w = (Ret tt, w') ->
  exists t l rows,
    fetched py w w' t l /\ (1 <= t <= len l)%Z /\
    candidates py cfg server (length (calls w) + 2)
               (filter (watched py) (firstn (Z.to_nat t) l)) rows /\
    NoDup (first_seen rows) /\
    (forall row, In row (first_seen rows) <-> In row rows) /\
    content w' =
      Some (translate (linesep py)
              (header ++ [CR; LF] ++ join [LF] (first_seen rows) ++ [CR; LF])) /\
    (linesep py = [LF] ->
     option_map file_lines (content w') =
       Some (header :: match first_seen rows with
                       | [] => [[]]
                       | _ => first_seen rows
                       end)).
Proof.
  intro H. apply to_csv_ret_inv in H.
  destruct H as [m [n [w1 [Hp [Hc [Hm Hcontent]]]]]].
  apply json_parser_returns in Hp.
  destruct Hp as [t [l [rows [Hf [Ht [Hrows [-> [_ _]]]]]]]].
  exists t, l, rows. repeat split; try assumption; try lia.
  - unfold fetched in *. now rewrite Hc.
  - apply first_seen_NoDup.
  - apply first_seen_In.
  - apply first_seen_In.
  - intro Hls. rewrite Hcontent, Hls, translate_lf. cbn [option_map].
    now rewrite lines_written.
Qed.

End Written.

Lemma csv_lines_are_header_and_distinct_rows_witness :
  exists t l rows,
    fetched Sample.cpython start
      (snd (to_csv Sample.cpython Sample.config Sample.server_two start)) t l /\
    (1 <= t <= len l)%Z /\
    candidates Sample.cpython Sample.config Sample.server_two
               (length (calls start) + 2)
               (filter (watched Sample.cpython) (firstn (Z.to_nat t) l)) rows /\
    NoDup (first_seen rows) /\
    content (snd (to_csv Sample.cpython Sample.config Sample.server_two start)) =
      Some (header ++ [CR; LF] ++ join [LF] (first_seen rows) ++ [CR; LF]) /\
    option_map file_lines
      (content (snd (to_csv Sample.cpython Sample.config Sample.server_two start))) =
      Some (header :: match first_seen rows with
                      | [] => [[]]
                      | _ => first_seen rows
                      end).
Proof.
  destruct (@csv_lines_are_header_and_distinct_rows
              Sample.cpython Sample.config Sample.server_two start
              (snd (to_csv Sample.cpython Sample.config Sample.server_two start)))
    as [t [l [rows [H1 [H2 [H3 [H4 [_ [H6 H7]]]]]]]]].
  { vm_compute. reflexivity. }
  exists t, l, rows.
  split; [exact H1|]. split; [exact H2|]. split; [exact H3|].
  split; [exact H4|]. split.
  - rewrite H6. change (linesep Sample.cpython) with [LF].
    now rewrite translate_lf.
  - apply H7. reflexivity.
Defined.

(** Three runs that complete and whose files differ from the claim: over
    one unwatched record the header is followed by an empty line; with a
    count of 1 and two watched records fetched, the second has no line;
    and where the line separator is CR LF the header line ends in a
    carriage return. *)
Lemma lines_differ_from_claim :
  ~ one_line_per_row Sample.cpython Sample.config Sample.server_unwatched start /\
  ~ one_line_per_row Sample.cpython Sample.config Sample.server_beyond start /\
  ~ one_line_per_row Sample.windows Sample.config Sample.server_two start.
Proof.
  split; [|split].
  - intro H.
    specialize (H (snd (to_csv Sample.cpython Sample.config
                          Sample.server_unwatched start))).
    destruct H as [t [l [rows [Hf [Hrows Hlines]]]]];
      [vm_compute; reflexivity|].
    destruct Hf as [req1 [j1 [x [req2 [jd [H1 [H2 [H3 [H4 H5]]]]]]]]].
    vm_compute in H4. injection H4 as _ <-.
    vm_compute in H5. injection H5 as <-.
    unfold candidates in Hrows.
    match type of Hrows with
    | Forall2 _ ?recs _ =>
        replace recs with (@nil (nat * json)) in Hrows
          by (vm_compute; reflexivity)
    end.
    inversion Hrows; subst rows.
    vm_compute in Hlines. discriminate Hlines.
  - intro H.
    specialize (H (snd (to_csv Sample.cpython Sample.config
                          Sample.server_beyond start))).
    destruct H as [t [l [rows [Hf [Hrows Hlines]]]]];
      [vm_compute; reflexivity|].
    destruct Hf as [req1 [j1 [x [req2 [jd [H1 [H2 [H3 [H4 H5]]]]]]]]].
    vm_compute in H4. injection H4 as _ <-.
    vm_compute in H5. injection H5 as <-.
    unfold candidates in Hrows.
    match type of Hrows with
    | Forall2 _ ?recs _ =>
        let v := eval vm_compute in recs in
        change recs with v in Hrows
    end.
    inversion Hrows as [|a ra rest rows1 Ha Hrest]; subst. clear Hrows.
    inversion Hrest as [|b rb rest2 rows2 Hb Hnil]; subst. clear Hrest.
    inversion Hnil; subst. clear Hnil Ha.
    destruct Hb as [t0 [y [k [d [z [date [j [rating Hb]]]]]]]].
    destruct Hb as [Ht [Hy [Hk [Hd [Hz [Hdate [Hs [Hr Hrow]]]]]]]].
    cbn [fst snd] in *.
    vm_compute in Ht. injection Ht as <-.
    vm_compute in Hy. injection Hy as <-.
    vm_compute in Hk. injection Hk as <-.
    vm_compute in Hd. injection Hd as <-.
    vm_compute in Hz. injection Hz as <-.
    vm_compute in Hdate. injection Hdate as <-.
    vm_compute in Hs. injection Hs as <-.
    vm_compute in Hr. injection Hr as <-.
    vm_compute in Hrow. subst rb.
    cbn [first_seen filter] in Hlines.
    destruct (str_eqb _ ra) eqn:E.
    + apply str_eqb_eq in E. subst ra.
      vm_compute in Hlines. discriminate Hlines.
    + cbn [negb] in Hlines.
      match type of Hlines with
      | ?lhs = _ => let v := eval vm_compute in lhs in
                    change lhs with v in Hlines
      end.
      discriminate Hlines.
  - intro H.
    specialize (H (snd (to_csv Sample.windows Sample.config
                          Sample.server_two start))).
    destruct H as [t [l [rows [Hf [Hrows Hlines]]]]];
      [vm_compute; reflexivity|].
    match type of Hlines with
    | ?lhs = _ => let v := eval vm_compute in lhs in
                  change lhs with v in Hlines
    end.
    injection Hlines as Hh _. vm_compute in Hh. discriminate Hh.
Qed.

(** ** Aborts and absent values *)

Section Scenarios.

Variable py : Python.
Variable cfg : Config.
Variable server : Server.

Lemma api_handler_reply params w j :
  server (length (calls w)) (dict_set (u"apikey") (PStr (TOKEN cfg)) params)
    = inr j ->
  api_handler cfg server params w
    = (Ret j, after w (dict_set (u"apikey") (PStr (TOKEN cfg)) params) (inr j)).
Proof. unfold api_handler. now intros ->. Qed.

Lemma path3 (v : json) (a b c : pystr) :
  path py v [a; b; c] =
  match get_key py v a with
  | inr r => match get_key py r b with
             | inr d => get_key py d c
             | inl e => inl e
             end
  | inl e => inl e
  end.
Proof.
  unfold path. simpl.
  destruct (get_key py v a) as [e|r]; [reflexivity|].
  destruct (get_key py r b) as [e|d]; reflexivity.
Qed.

Lemma path2 (v : json) (a b : pystr) :
  path py v [a; b] =
  match get_key py v a with
  | inr r => get_key py r b
  | inl e => inl e
  end.
Proof.
  unfold path. simpl. destruct (get_key py v a) as [e|r]; reflexivity.
Qed.

(** A value with a field is a non-empty object. *)
Lemma get_key_iterations (v : json) (k : pystr) (x : json) :
  get_key py v k = inr x -> exists n, iterations py v = inr (S n).
Proof.
  destruct v; unfold get_key, fail; try discriminate.
  destruct members as [|m ms]; [discriminate|]. intros _. simpl. eauto.
Qed.

Lemma path_iterations (v : json) (k : pystr) (ks : list pystr) (x : json) :
  path py v (k :: ks) = inr x -> exists n, iterations py v = inr (S n).
Proof.
  unfold path. simpl. destruct (get_key py v k) as [e|r] eqn:E.
  - intro H. exfalso. induction ks as [|k' ks IH]; [discriminate H|].
    simpl in H. now apply IH.
  - intros _. now apply get_key_iterations in E.
Qed.

(** [get_length] on a response that holds the count. *)
Lemma get_length_count w j x z :
  server (length (calls w)) (count_request cfg) = inr j ->
  path py j count_path = inr x -> py_int py x = inr z ->
  get_length py cfg server w
    = (Ret (Some z), after w (count_request cfg) (inr j)).
Proof.
  intros Hs Hp Hz. unfold get_length.
  erewrite bind_eq by (apply api_handler_reply; exact Hs).
  pose proof Hp as Hn. unfold count_path in Hn.
  apply path_iterations in Hn. destruct Hn as [n Hn]. rewrite Hn. simpl.
  unfold count_path in Hp. rewrite path3 in Hp.
  unfold try_except, bind.
  destruct (get_key py j (u"response")) as [e|r]; [discriminate|]. simpl.
  destruct (get_key py r (u"data")) as [e|d]; [discriminate|]. simpl.
  rewrite Hp. simpl. now rewrite Hz.
Qed.

(** [get_length] on a non-empty response in which the count cannot be
    reached. *)
Lemma get_length_fails w j n e :
  server (length (calls w)) (count_request cfg) = inr j ->
  iterations py j = inr (S n) ->
  path py j count_path = inl e ->
  get_length py cfg server w
    = (if is_class (cls e) KeyError then Exit credential_hint else Raise e,
       after w (count_request cfg) (inr j)).
Proof.
  intros Hs Hn Hp. unfold get_length.
  erewrite bind_eq by (apply api_handler_reply; exact Hs).
  rewrite Hn. simpl.
  unfold count_path in Hp. rewrite path3 in Hp.
  unfold try_except, bind.
  destruct (get_key py j (u"response")) as [e1|r]; simpl.
  { injection Hp as ->. unfold exit, raise.
    now destruct (is_class (cls e) KeyError). }
  destruct (get_key py r (u"data")) as [e1|d]; simpl.
  { injection Hp as ->. unfold exit, raise.
    now destruct (is_class (cls e) KeyError). }
  rewrite Hp. simpl. unfold exit, raise.
  now destruct (is_class (cls e) KeyError).
Qed.

Lemma json_parser_stops w o w1 :
  get_length py cfg server w = (o, w1) -> (forall a, o <> Ret a) ->
  exists o', json_parser py cfg server w = (o', w1) /\
             exit_message o' = exit_message o /\
             (forall e, o = Raise e -> o' = Raise e).
Proof.
  intros H Hn. unfold json_parser.
  match goal with
  | |- exists o', bind ?m ?k w = _ /\ _ =>
      destruct (bind_stop m k w H Hn) as [o' [H1 [H2 [_ [H3 _]]]]]
  end.
  exists o'. split; [exact H1|]. now split.
Qed.

Lemma to_csv_exit w msg w1 :
  json_parser py cfg server w = (Exit msg, w1) ->
  to_csv py cfg server w = (Exit msg, w1).
Proof. unfold to_csv, try_except, bind. now intros ->. Qed.

Lemma to_csv_raise w e w1 :
  json_parser py cfg server w = (Raise e, w1) ->
  cls e = TypeError ->
  to_csv py cfg server w = (Exit (text e ++ [LF] ++ user_hint), w1).
Proof.
  unfold to_csv, try_except, bind. intros -> Hc. now rewrite Hc.
Qed.


(** C5, as the code has it: when the count response is non-empty and the
    field cannot be reached, the run ends after that single request, with
    the file untouched; the message is the credential one when the lookup
    fails on a missing key, and the text of the error with the user hint
    when it fails on a value that cannot be subscripted by a key. *)
Theorem missing_count_field_aborts (w : world) (j : json) (n : nat) (e : exn) :
  server (length (calls w)) (count_request cfg) = inr j ->
  iterations py j = inr (S n) ->
  path py j count_path = inl e ->
  snd (to_csv py cfg server w) = after w (count_request cfg) (inr j) /\
  (cls e = KeyError ->
     fst (to_csv py cfg server w) = Exit credential_hint) /\
  (cls e = TypeError ->
     fst (to_csv py cfg server w) = Exit (text e ++ [LF] ++ user_hint)) /\
  (cls e = KeyError \/ cls e = TypeError).
Proof.
  intros Hs Hn Hp.
  pose proof (get_length_fails w Hs Hn Hp) as Hg.
  assert (cls e = KeyError \/ cls e = TypeError) as Hcls.
  { unfold count_path in Hp. rewrite path3 in Hp.
    assert (forall v k e', get_key py v k = inl e' ->
              cls e' = KeyError \/ cls e' = TypeError) as Hk.
    { intros v k e' H. destruct v; unfold get_key, fail in H;
        try (injection H as <-; now right).
      destruct (lookup k members); [discriminate|].
      injection H as <-. now left. }
    destruct (get_key py j (u"response")) as [e1|r] eqn:E1;
      [injection Hp as <-; now apply Hk in E1|].
    destruct (get_key py r (u"data")) as [e1|d] eqn:E2;
      [injection Hp as <-; now apply Hk in E2|].
    now apply Hk in Hp. }
  destruct (exn_class_eq_dec (cls e) KeyError) as [Hc|Hc].
  - rewrite Hc in Hg. simpl in Hg.
    destruct (json_parser_stops w Hg ltac:(discriminate)) as [o' [Hj [Hm _]]].
    simpl in Hm. destruct o'; try discriminate. injection Hm as ->.
    rewrite (to_csv_exit w Hj). simpl. repeat split; try assumption.
    intro Ht. congruence.
  - destruct Hcls as [Hc'|Hc']; [contradiction|].
    rewrite Hc' in Hg. simpl in Hg.
    destruct (json_parser_stops w Hg ltac:(discriminate)) as [o' [Hj [_ Hr]]].
    rewrite (Hr e eq_refl) in Hj.
    rewrite (to_csv_raise w Hj Hc'). simpl. repeat split; try assumption.
    + intro Hk. congruence.
    + now right.
Qed.


Lemma rating_handler_absent w rating j d :
  server (length (calls w)) (metadata_request cfg rating) = inr j ->
  path py j payload_path = inr d ->
  truthy py d = false ->
  rating_handler py cfg server rating w
    = (Ret JNull, after w (metadata_request cfg rating) (inr j)).
Proof.
  intros Hs Hp Ht. unfold rating_handler.
  erewrite bind_eq by (apply api_handler_reply; exact Hs).
  pose proof Hp as Hn. unfold payload_path in Hn.
  apply path_iterations in Hn. destruct Hn as [n Hn]. rewrite Hn. simpl.
  unfold payload_path in Hp. rewrite path2 in Hp. unfold bind.
  destruct (get_key py j (u"response")) as [e|r]; [discriminate|]. simpl.
  rewrite Hp. simpl. now rewrite Ht.
Qed.

(** C6: when the metadata response for a rating key has an empty (false)
    data payload, [rating_handler] returns [None] after that one request,
    raising nothing, and the row of a record with that rating key carries
    the text [None] between the year and the date. *)
Theorem empty_payload_gives_no_rating (w : world) (rating : pystr)
    (j d : json) :
  server (length (calls w)) (metadata_request cfg rating) = inr j ->
  path py j payload_path = inr d ->
  truthy py d = false ->
  rating_handler py cfg server rating w
    = (Ret JNull, after w (metadata_request cfg rating) (inr j)) /\
  forall json_data count movies r t y k dt z date,
    record py json_data count = inr r ->
    get_key py r (u"title") = inr t ->
    get_key py r (u"year") = inr y ->
    get_key py r (u"rating_key") = inr k ->
    py_str py k = rating ->
    get_key py r (u"date") = inr dt ->
    py_int py dt = inr z ->
    local_date py z = inr date ->
    visit py cfg server json_data count movies w
      = (Ret (offer (render_title (py_str py t) ++ [COMMA] ++ py_str py y
                     ++ [COMMA] ++ u"None" ++ [COMMA] ++ date) movies),
         after w (metadata_request cfg rating) (inr j)).
Proof.
  intros Hs Hp Ht.
  pose proof (rating_handler_absent w Hs Hp Ht) as Hrate.
  split; [assumption|].
  intros json_data count movies r t y k dt z date Hr Htitle Hyear Hkey Hk
         Hdate Hz Hd.
  assert (forall w0, record_at py json_data count w0 = (Ret r, w0)) as Hrec
    by (intro w0; now rewrite record_at_lift, Hr).
  unfold visit.
  erewrite bind_eq by apply Hrec. erewrite bind_lift by exact Htitle.
  erewrite bind_eq by apply Hrec. erewrite bind_lift by exact Hyear.
  erewrite bind_eq by apply Hrec. erewrite bind_lift by exact Hkey.
  rewrite Hk. erewrite bind_eq by exact Hrate.
  erewrite bind_eq by apply Hrec. erewrite bind_lift by exact Hdate.
  erewrite bind_lift by exact Hz. erewrite bind_lift by exact Hd.
  reflexivity.
Qed.



End Scenarios.

Lemma missing_count_field_aborts_witness :
  to_csv Sample.cpython Sample.config Sample.server_rejecting start
    = (Exit credential_hint,
       after start (count_request Sample.config)
         (Sample.server_rejecting 0%nat (count_request Sample.config))).
Proof.
  destruct (@missing_count_field_aborts
              Sample.cpython Sample.config Sample.server_rejecting start
              _ 0%nat (Exn KeyError (u"'recordsFiltered'"))
              eq_refl eq_refl eq_refl) as [Hw [Hk _]].
  rewrite (surjective_pairing (to_csv _ _ _ _)), Hw, (Hk eq_refl).
  reflexivity.
Defined.

(** A count response whose [response] member is null is a non-empty
    object without the field; the run ends with the user hint, not with
    the credential message. *)
Lemma null_response_not_reported_as_credential :
  ~ credential_claim Sample.cpython Sample.config Sample.server_null start.
Proof.
  intro H.
  specialize (H [(u"response", JNull)]
                (Exn TypeError (u"object is not subscriptable"))
                eq_refl).
  assert (to_csv Sample.cpython Sample.config Sample.server_null start
          = (Exit (u"object is not subscriptable" ++ [LF] ++ user_hint),
             after start (count_request Sample.config)
               (inr (JObj [(u"response", JNull)])))) as E
    by (vm_compute; reflexivity).
  rewrite E in H. discriminate H; [discriminate | reflexivity].
Qed.

(** ** The theorems at work on the sample servers *)

Lemma connection_error_is_fatal_witness :
  fst (to_csv Sample.cpython Sample.config
         (Sample.unreachable_from 2 Sample.server_two) start)
    = Exit (u"Connection refused" ++ [LF] ++ connection_hint) /\
  length (calls (snd (to_csv Sample.cpython Sample.config
                        (Sample.unreachable_from 2 Sample.server_two) start)))
    = 3%nat.
Proof.
  apply (@connection_error_is_fatal Sample.cpython Sample.config
           (Sample.unreachable_from 2 Sample.server_two) start 2%nat
           (metadata_request Sample.config (u"101"))
           (inl (Exn ConnectionError (u"Connection refused")))
           (u"Connection refused")).
  - constructor.
  - vm_compute. reflexivity.
  - reflexivity.
Defined.

Lemma file_untouched_before_write_witness :
  io (snd (to_csv Sample.cpython Sample.config
             (Sample.unreachable_from 1 Sample.server_two) start)) = [] /\
  content (snd (to_csv Sample.cpython Sample.config
                  (Sample.unreachable_from 1 Sample.server_two) start)) = None.
Proof.
  apply (proj2 (file_untouched_before_write Sample.cpython Sample.config
                  (Sample.unreachable_from 1 Sample.server_two) start)).
  vm_compute. reflexivity.
Defined.

Lemma empty_payload_gives_no_rating_witness :
  rating_handler Sample.cpython Sample.config Sample.server_unrated
                 (u"101") start
    = (Ret JNull,
       after start (metadata_request Sample.config (u"101"))
             (Sample.unrated (u"101"))) /\
  fst (visit Sample.cpython Sample.config Sample.server_unrated
             (Sample.history 2 Sample.two_records) 0 [] start)
    = Ret [[DQUOTE] ++ u"Movie, The Sequel" ++ [DQUOTE]
           ++ u",2019,None,2023-11-14"].
Proof.
  destruct (@empty_payload_gives_no_rating
              Sample.cpython Sample.config Sample.server_unrated start
              (u"101") _ (JObj []) eq_refl eq_refl eq_refl) as [H1 H2].
  split; [exact H1|].
  rewrite (H2 (Sample.history 2 Sample.two_records) 0%Z []
              _ _ _ _ _ _ _
              eq_refl eq_refl eq_refl eq_refl eq_refl eq_refl eq_refl eq_refl).
  vm_compute. reflexivity.
Defined.



(** * Further properties of the pipeline *)

(** ** Normalisation touches white space only *)

Section Ink.

Lemma ink_app (a b : pystr) : ink (a ++ b) = ink a ++ ink b.
Proof. apply filter_app. Qed.

Lemma ink_lstrip (s : pystr) : ink (lstrip s) = ink s.
Proof.
  induction s as [|c s IH]; [reflexivity|]. simpl.
  destruct (isspace c) eqn:E; simpl; [assumption | now rewrite E].
Qed.

Lemma ink_rev (s : pystr) : ink (rev s) = rev (ink s).
Proof.
  induction s as [|c s IH]; [reflexivity|]. simpl.
  rewrite ink_app, IH. simpl. destruct (isspace c); simpl;
    [now rewrite app_nil_r | reflexivity].
Qed.

Lemma ink_strip (s : pystr) : ink (strip s) = ink s.
Proof.
  unfold strip, rstrip.
  now rewrite ink_rev, ink_lstrip, ink_rev, rev_involutive, ink_lstrip.
Qed.

Lemma ink_join (parts : list pystr) :
  ink (join [SPACE] parts) = concat (map ink parts).
Proof.
  induction parts as [|p ps IH]; [reflexivity|].
  destruct ps as [|q ps].
  - simpl. now rewrite app_nil_r.
  - change (join [SPACE] (p :: q :: ps))
      with (p ++ [SPACE] ++ join [SPACE] (q :: ps)).
    rewrite !ink_app, IH. reflexivity.
Qed.

Lemma ink_split (s : pystr) : concat (map ink (split LF s)) = ink s.
Proof.
  induction s as [|c s IH]; [reflexivity|]. simpl split.
  destruct (N.eqb_spec c LF) as [->|Hc].
  - simpl. exact IH.
  - destruct (split_cons LF s) as [seg [segs E]]. rewrite E in *.
    simpl in *. destruct (isspace c); simpl; now rewrite IH.
Qed.

(** X10: the normalised title holds the characters of the raw title that
    are not white space, all of them and in their order; so does the
    rendered title, between its two quotes when the title has a comma. *)
Theorem normalization_keeps_ink (name : pystr) :
  ink (normalize name) = ink name /\
  ink (render_title name) =
    (if contains COMMA name then [DQUOTE] ++ ink name ++ [DQUOTE]
     else ink name).
Proof.
  assert (ink (normalize name) = ink name) as H.
  { unfold normalize. rewrite ink_join, <- ink_split.
    induction (split LF name) as [|seg segs IH]; [reflexivity|].
    simpl. destruct seg as [|c seg]; simpl filter.
    - exact IH.
    - cbn [nonempty map concat]. now rewrite ink_strip, IH. }
  split; [assumption|].
  unfold render_title. destruct (contains COMMA name); [|reflexivity].
  now rewrite !ink_app, H.
Qed.

End Ink.

(** ** The list of rows *)

Section Offer.

(** X2: offering a row to a list without duplicates leaves a list without
    duplicates that holds the row, starts with the old list and does not
    change when the row is offered again. *)
Theorem offer_keeps_rows_distinct (row : pystr) (movies : list pystr) :
  NoDup movies ->
  NoDup (offer row movies) /\
  In row (offer row movies) /\
  (exists added, offer row movies = movies ++ added /\ (length added <= 1)%nat) /\
  offer row (offer row movies) = offer row movies.
Proof.
  intro H. destruct (member row movies) eqn:E.
  - assert (offer row movies = movies) as Ho by (unfold offer; now rewrite E).
    rewrite !Ho. split; [assumption|]. split; [now apply member_In|].
    split; [|reflexivity].
    exists []. rewrite app_nil_r. split; [reflexivity | simpl; lia].
  - assert (offer row movies = movies ++ [row]) as Ho
      by (unfold offer; now rewrite E).
    assert (~ In row movies) as Hn
      by (intro Hin; apply member_In in Hin; congruence).
    rewrite !Ho. split; [|split; [|split]].
    + apply NoDup_app; [assumption | repeat constructor; intros [] |].
      intros x Hx [<-|[]]. contradiction.
    + apply in_or_app. right. now left.
    + exists [row]. split; [reflexivity | simpl; lia].
    + unfold offer.
      assert (member row (movies ++ [row]) = true) as ->
        by (apply member_In, in_or_app; right; now left).
      reflexivity.
Qed.

Lemma offer_keeps_rows_distinct_witness :
  NoDup (offer (u"c") [u"a"; u"b"]) /\
  In (u"c") (offer (u"c") [u"a"; u"b"]) /\
  (exists added, offer (u"c") [u"a"; u"b"] = [u"a"; u"b"] ++ added /\
                 (length added <= 1)%nat) /\
  offer (u"c") (offer (u"c") [u"a"; u"b"]) = offer (u"c") [u"a"; u"b"].
Proof.
  apply offer_keeps_rows_distinct.
  constructor; [intros [E|[]]; discriminate E|].
  constructor; [intros []|constructor].
Defined.

End Offer.

(** ** Every request is authenticated *)

Section Token.

Variable py : Python.
Variable cfg : Config.
Variable server : Server.

Lemma param_value_dict_set (k : pystr) (v : param) (d : request) :
  param_value k (dict_set k v d) = Some v.
Proof.
  induction d as [|[k' v'] d IH]; simpl.
  - now rewrite str_eqb_refl.
  - destruct (str_eqb k k') eqn:E; simpl; [now rewrite str_eqb_refl|].
    now rewrite E.
Qed.

Lemma authenticated_kept A (m : M A) :
  (forall w, calls (snd (m w)) = calls w) -> authenticated cfg m.
Proof. intros H w. exists []. rewrite H, app_nil_r. now split. Qed.

Lemma authenticated_bind A B (m : M A) (k : A -> M B) :
  authenticated cfg m -> (forall a, authenticated cfg (k a)) ->
  authenticated cfg (bind m k).
Proof.
  intros Hm Hk w. unfold bind. destruct (Hm w) as [new [H1 H2]].
  destruct (m w) as [[a|e|msg|] w1]; simpl in *; try (now exists new).
  destruct (Hk a w1) as [new' [H3 H4]].
  exists (new ++ new'). rewrite H3, H1, app_assoc. split; [reflexivity|].
  now apply Forall_app.
Qed.

Lemma authenticated_try A (m : M A) (h : exn -> M A) :
  authenticated cfg m -> (forall e, authenticated cfg (h e)) ->
  authenticated cfg (try_except m h).
Proof.
  intros Hm Hh w. unfold try_except. destruct (Hm w) as [new [H1 H2]].
  destruct (m w) as [[a|e|msg|] w1]; simpl in *; try (now exists new).
  destruct (Hh e w1) as [new' [H3 H4]].
  exists (new ++ new'). rewrite H3, H1, app_assoc. split; [reflexivity|].
  now apply Forall_app.
Qed.

Lemma authenticated_api params : authenticated cfg (api_handler cfg server params).
Proof.
  intro w. unfold api_handler.
  set (req := dict_set (u"apikey") (PStr (TOKEN cfg)) params).
  exists [(req, server (length (calls w)) req)]. split.
  - destruct (server (length (calls w)) req) as [e|j];
      [destruct (is_class (cls e) ConnectionError)|]; reflexivity.
  - constructor; [|constructor]. apply param_value_dict_set.
Qed.

Lemma authenticated_json_parser : authenticated cfg (json_parser py cfg server).
Proof.
  apply (P_json_parser py cfg server (fun A m => @authenticated cfg A m)).
  - intros A a. now apply authenticated_kept.
  - intros A e. now apply authenticated_kept.
  - intros A msg. now apply authenticated_kept.
  - intros A B m k. apply authenticated_bind.
  - intros A m h. apply authenticated_try.
  - apply authenticated_api.
  - intros A. now apply authenticated_kept.
Qed.

Lemma writerow_calls fields w : calls (snd (writerow py fields w)) = calls w.
Proof.
  unfold writerow, write, raise.
  destruct (existsb (existsb (needs_escape py)) fields); [reflexivity|].
  destruct fields as [|[|c f] [|g fs]]; try reflexivity;
    match goal with |- context [forallb encodable ?t] =>
      destruct (forallb encodable t) end; reflexivity.
Qed.

(** X1: whatever parameters it is given, [api_handler] sends them with
    the configured token as [apikey], replacing an [apikey] the caller
    supplied; a run only appends requests to those made before it, and
    every request it appends carries the token. *)
Theorem every_request_carries_token :
  (forall params, authenticated cfg (api_handler cfg server params)) /\
  authenticated cfg (to_csv py cfg server).
Proof.
  split; [apply authenticated_api|].
  unfold to_csv. apply authenticated_try.
  - apply authenticated_bind; [apply authenticated_json_parser|].
    intros [[movies n]|]; [|now apply authenticated_kept].
    apply authenticated_bind.
    { apply authenticated_kept. intro w. unfold open_file.
      now destruct (open_error py). }
    intros _. apply authenticated_bind.
    { apply authenticated_kept. intro w. unfold make_writer.
      now destruct (dialect_error py). }
    intros _. apply authenticated_bind;
      [apply authenticated_kept, writerow_calls|].
    intros _. apply authenticated_kept, writerow_calls.
  - intro e. destruct (is_class (cls e) TypeError);
      [now apply authenticated_kept|].
    destruct (is_class (cls e) KeyboardInterrupt); now apply authenticated_kept.
Qed.

End Token.

(** ** The messages of an exit *)

Section Exits.

Variable py : Python.
Variable cfg : Config.
Variable server : Server.

Lemma exits_known_bind A B (m : M A) (k : A -> M B) :
  exits_known cfg m -> (forall a, exits_known cfg (k a)) ->
  exits_known cfg (bind m k).
Proof.
  intros Hm Hk w msg. unfold bind. specialize (Hm w).
  destruct (m w) as [[a|e|x|] w1]; simpl in *; try discriminate.
  - apply Hk.
  - intro H. injection H as <-. now apply Hm.
Qed.

Lemma exits_known_quiet A (m : M A) :
  (forall w msg, fst (m w) <> Exit msg) -> exits_known cfg m.
Proof. intros H w msg E. now apply H in E. Qed.

Lemma exits_known_lift A (r : exn + A) : exits_known cfg (lift r).
Proof. apply exits_known_quiet. intros w msg. now destruct r. Qed.

Lemma exits_known_api params : exits_known cfg (api_handler cfg server params).
Proof.
  intros w msg. unfold api_handler.
  destruct (server _ _) as [e|j]; [|discriminate].
  destruct (is_class (cls e) ConnectionError); [|discriminate].
  simpl. intro H. injection H as <-. left. now exists (text e).
Qed.

Lemma exits_known_for_loop passes json_data total_count movies :
  exits_known cfg (for_loop py cfg server passes json_data total_count movies).
Proof.
  apply (P_for_loop py cfg server (fun A m => @exits_known cfg A m)).
  - intros A a. now apply exits_known_quiet.
  - intros A e. now apply exits_known_quiet.
  - intros A B m k. apply exits_known_bind.
  - apply exits_known_api.
  - intros A. now apply exits_known_quiet.
Qed.

Lemma exits_known_get_length : exits_known cfg (get_length py cfg server).
Proof.
  unfold get_length. apply exits_known_bind; [apply exits_known_api|].
  intro json_data. apply exits_known_bind; [apply exits_known_lift|].
  intros [|n]; [now apply exits_known_quiet|].
  intros w msg. unfold try_except.
  match goal with
  | |- fst (match ?c w with _ => _ end) = _ -> _ =>
      assert (exits_known cfg c) as Hc;
        [|specialize (Hc w); destruct (c w) as [[a|e|x|] w1]]
  end.
  { repeat (apply exits_known_bind; [apply exits_known_lift|]; intro).
    now apply exits_known_quiet. }
  - discriminate.
  - destruct (is_class (cls e) KeyError); [|discriminate].
    simpl. intro H. injection H as <-. right. now left.
  - intro H. apply Hc. exact H.
  - discriminate.
Qed.

Lemma exits_known_json_parser : exits_known cfg (json_parser py cfg server).
Proof.
  unfold json_parser. apply exits_known_bind; [apply exits_known_get_length|].
  intro total_count. apply exits_known_bind; [apply exits_known_api|].
  intro json_data. intros w msg. unfold try_except.
  match goal with
  | |- fst (match ?c w with _ => _ end) = _ -> _ =>
      assert (exits_known cfg c) as Hc;
        [|specialize (Hc w); destruct (c w) as [[a|e|x|] w1]]
  end.
  { apply exits_known_bind; [apply exits_known_lift|]. intro passes.
    apply exits_known_for_loop. }
  - discriminate.
  - destruct (is_class (cls e) IndexError); [|discriminate].
    simpl. intro H. injection H as <-. right. right. left. now exists (text e).
  - intro H. apply Hc. exact H.
  - discriminate.
Qed.

(** X7: when a run ends in an exit, its message is one of five: the text
    of a connection error and the base-URL hint, the credential hint, the
    text of an index error and the configuration hint, the text of a type
    error and the user hint, or the halted message naming the output file. *)
Theorem exit_messages_are_known (w : world) (msg : pystr) :
  fst (to_csv py cfg server w) = Exit msg -> known_exit cfg msg.
Proof.
  unfold to_csv, try_except.
  match goal with
  | |- fst (match ?c w with _ => _ end) = _ -> _ =>
      assert (exits_known cfg c) as Hc;
        [|specialize (Hc w); destruct (c w) as [[a|e|x|] w1]]
  end.
  { apply exits_known_bind; [apply exits_known_json_parser|].
    intros [[movies n]|]; [|now apply exits_known_quiet].
    assert (forall fields, exits_known cfg (writerow py fields)) as Hw.
    { intro fields. apply exits_known_quiet. intros w0 m0.
      unfold writerow, write, raise.
      destruct (existsb (existsb (needs_escape py)) fields); [discriminate|].
      destruct fields as [|[|c f] [|g fs]]; try discriminate;
        match goal with |- context [forallb encodable ?t] =>
          destruct (forallb encodable t) end; discriminate. }
    apply exits_known_bind.
    { apply exits_known_quiet. intros w0 m0. unfold open_file.
      destruct (open_error py); discriminate. }
    intros _. apply exits_known_bind.
    { apply exits_known_quiet. intros w0 m0. unfold make_writer.
      destruct (dialect_error py); discriminate. }
    intros _. apply exits_known_bind; [apply Hw|]. intros _. apply Hw. }
  - discriminate.
  - destruct (is_class (cls e) TypeError).
    + simpl. intro H. injection H as <-. right. right. right. left.
      now exists (text e).
    + destruct (is_class (cls e) KeyboardInterrupt); [|discriminate].
      simpl. intro H. injection H as <-. now repeat right.
  - intro H. apply Hc. exact H.
  - discriminate.
Qed.

End Exits.

Lemma exit_messages_are_known_witness :
  known_exit Sample.config
    (u"list index out of range" ++ [LF] ++ index_hint).
Proof.
  apply (@exit_messages_are_known Sample.cpython Sample.config
           Sample.server_empty start).
  vm_compute. reflexivity.
Defined.

(** ** Exceptions of a request that nobody handles *)

Section Surfacing.

Variable py : Python.
Variable cfg : Config.
Variable server : Server.

Lemma served_snoc tr c :
  served tr -> is_body (snd c) = true -> served (tr ++ [c]).
Proof.
  intros H1 H2. apply Forall_app. split; [assumption|]. now constructor.
Qed.

Lemma surfaced_not_ret A (a : A) tr : ~ surfaced (Ret a) tr.
Proof. intros [tr0 [req [e [_ [_ [H _]]]]]]. now apply (H a). Qed.

Lemma transparent_kept A (m : M A) :
  (forall w, calls (snd (m w)) = calls w) -> transparent m.
Proof. intros H w Hw. left. now rewrite H. Qed.

Lemma transparent_lift A (r : exn + A) : transparent (lift r).
Proof. apply transparent_kept. intro w. now destruct r. Qed.

Lemma transparent_bind A B (m : M A) (k : A -> M B) :
  transparent m -> (forall a, transparent (k a)) -> transparent (bind m k).
Proof.
  intros Hm Hk w Hw. specialize (Hm w Hw). unfold bind.
  destruct (m w) as [[a|e|msg|] w1]; simpl in *.
  - destruct Hm as [Hm|Hm]; [now apply Hk | now apply surfaced_not_ret in Hm].
  - destruct Hm as [Hm|[tr0 [req [e0 [H1 [H2 [_ H3]]]]]]]; [now left|].
    right. exists tr0, req, e0. repeat split; try assumption; try discriminate.
    intro Hf. apply H3 in Hf. now injection Hf as ->.
  - destruct Hm as [Hm|[tr0 [req [e0 [H1 [H2 [_ H3]]]]]]]; [now left|].
    right. exists tr0, req, e0. repeat split; try assumption; try discriminate.
    intro Hf. apply H3 in Hf. discriminate Hf.
  - destruct Hm as [Hm|[tr0 [req [e0 [H1 [H2 [_ H3]]]]]]]; [now left|].
    right. exists tr0, req, e0. repeat split; try assumption; try discriminate.
    intro Hf. apply H3 in Hf. discriminate Hf.
Qed.

Lemma transparent_api params : transparent (api_handler cfg server params).
Proof.
  intros w Hw. unfold api_handler.
  set (req := dict_set _ _ params).
  destruct (server (length (calls w)) req) as [e|j] eqn:E.
  - right. exists (calls w), req, e.
    destruct (is_class (cls e) ConnectionError) eqn:C; simpl;
      repeat split; try assumption; try discriminate.
    intros [Hc _]. congruence.
  - left. simpl. now apply served_snoc.
Qed.

Lemma transparent_for_loop passes json_data total_count movies :
  transparent (for_loop py cfg server passes json_data total_count movies).
Proof.
  apply (P_for_loop py cfg server (fun A m => @transparent A m)).
  - intros A a. now apply transparent_kept.
  - intros A e. now apply transparent_kept.
  - intros A B m k. apply transparent_bind.
  - apply transparent_api.
  - intros A. now apply transparent_kept.
Qed.

Lemma transparent_get_length : transparent (get_length py cfg server).
Proof.
  unfold get_length. apply transparent_bind; [apply transparent_api|].
  intro json_data. apply transparent_bind; [apply transparent_lift|].
  intros [|n]; apply transparent_kept; [reflexivity|].
  intro w. unfold try_except, bind.
  destruct (get_key py json_data (u"response")) as [e|r]; simpl.
  { now destruct (is_class (cls e) KeyError). }
  destruct (get_key py r (u"data")) as [e|d]; simpl.
  { now destruct (is_class (cls e) KeyError). }
  destruct (get_key py d (u"recordsFiltered")) as [e|x]; simpl.
  { now destruct (is_class (cls e) KeyError). }
  destruct (py_int py x) as [e|z]; simpl; [|reflexivity].
  now destruct (is_class (cls e) KeyError).
Qed.

Lemma transparent_json_parser : transparent (json_parser py cfg server).
Proof.
  unfold json_parser. apply transparent_bind; [apply transparent_get_length|].
  intro total_count. apply transparent_bind; [apply transparent_api|].
  intro json_data. intros w Hw. unfold try_except.
  match goal with
  | |- context [match ?c w with _ => _ end] =>
      assert (transparent c) as Hc;
        [|specialize (Hc w Hw); destruct (c w) as [[a|e|x|] w1]]
  end.
  { apply transparent_bind; [apply transparent_lift|]. intro passes.
    apply transparent_for_loop. }
  - assumption.
  - simpl in Hc. destruct Hc as [Hc|[tr0 [req [e0 [H1 [H2 [_ H3]]]]]]].
    + left. now destruct (is_class (cls e) IndexError).
    + right. exists tr0, req, e0.
      destruct (is_class (cls e) IndexError) eqn:C; simpl.
      * split; [assumption|]. split; [assumption|].
        split; [discriminate|].
        intro Hf. pose proof (H3 Hf) as H4. injection H4 as ->.
        destruct Hf as [_ Hf]. congruence.
      * split; [assumption|]. split; [assumption|].
        split; [discriminate|]. exact H3.
  - assumption.
  - assumption.
Qed.

Lemma to_csv_calls w :
  calls (snd (to_csv py cfg server w)) = calls (snd (json_parser py cfg server w)).
Proof.
  unfold to_csv, try_except, bind.
  destruct (json_parser py cfg server w) as [[[[m n]|]|e|msg|] w1]; simpl;
    try reflexivity.
  - unfold open_file. destruct (open_error py) as [e|]; simpl.
    { destruct (is_class (cls e) TypeError); [reflexivity|].
      now destruct (is_class (cls e) KeyboardInterrupt). }
    unfold make_writer. destruct (dialect_error py) as [e|]; simpl.
    { unfold raise. simpl. destruct (is_class (cls e) TypeError); [reflexivity|].
      now destruct (is_class (cls e) KeyboardInterrupt). }
    unfold ret. simpl.
    pose proof (writerow_calls py [header]
                  {| calls := calls w1; io := io w1 ++ [Open] |}) as H1.
    destruct (writerow py [header] _) as [[[]|e|msg|] w2]; simpl in *.
    + pose proof (writerow_calls py m w2) as H2.
      destruct (writerow py m w2) as [[[]|e|msg|] w3]; simpl in *;
        try congruence.
      destruct (is_class (cls e) TypeError); simpl; [congruence|].
      destruct (is_class (cls e) KeyboardInterrupt); simpl; congruence.
    + destruct (is_class (cls e) TypeError); simpl; [congruence|].
      destruct (is_class (cls e) KeyboardInterrupt); simpl; congruence.
    + assumption.
    + assumption.
  - destruct (is_class (cls e) TypeError); [reflexivity|].
    now destruct (is_class (cls e) KeyboardInterrupt).
Qed.

Lemma to_csv_of_raise w e w1 :
  json_parser py cfg server w = (Raise e, w1) ->
  to_csv py cfg server w = (at_top cfg e, w1).
Proof.
  unfold to_csv, try_except, bind, at_top. intros ->.
  destruct (is_class (cls e) TypeError); [reflexivity|].
  now destruct (is_class (cls e) KeyboardInterrupt).
Qed.

(** X8: when a request of a run raises an exception that is neither a
    connection error nor an index error -- a body that does not parse, an
    interrupt while waiting -- no further request is sent, the file is
    not touched, and the exception reaches [to_csv] as it was raised: a
    type error ends the run with its text and the user hint, an interrupt
    with the halted message, and any other exception leaves the program
    uncaught. *)
Theorem request_errors_surface (w : world) (i : nat) (req : request) (e : exn) :
  served (calls w) ->
  nth_error (calls (snd (to_csv py cfg server w))) i = Some (req, inl e) ->
  foreign e ->
  fst (to_csv py cfg server w) = at_top cfg e /\
  length (calls (snd (to_csv py cfg server w))) = S i /\
  io (snd (to_csv py cfg server w)) = io w.
Proof.
  intros Hw Hi Hf. rewrite to_csv_calls in Hi |- *.
  pose proof (quiet_json_parser py cfg server w) as Hq.
  destruct (transparent_json_parser w Hw) as [H|H].
  - exfalso. unfold served in H. rewrite Forall_forall in H.
    apply nth_error_In in Hi. apply H in Hi. discriminate Hi.
  - destruct H as [tr0 [req' [e' [H1 [H2 [H3 H4]]]]]].
    rewrite H1 in Hi |- *. rewrite length_app. simpl.
    destruct (Nat.lt_ge_cases i (length tr0)) as [Hlt|Hge].
    + exfalso. rewrite nth_error_app1 in Hi by assumption.
      unfold served in H2. rewrite Forall_forall in H2.
      apply nth_error_In in Hi. apply H2 in Hi. discriminate Hi.
    + rewrite nth_error_app2 in Hi by assumption.
      destruct (i - length tr0)%nat as [|k] eqn:Ek;
        [|simpl in Hi; now destruct k].
      simpl in Hi. injection Hi as <- <-.
      specialize (H4 Hf).
      destruct (json_parser py cfg server w) as [o w1] eqn:E. simpl in *.
      subst o. rewrite (to_csv_of_raise w E). simpl.
      repeat split; [lia | assumption].
Qed.

End Surfacing.

Lemma request_errors_surface_witness :
  fst (to_csv Sample.cpython Sample.config
         (Sample.raising_at 1 (Exn ValueError (u"Expecting value"))
            Sample.server_two) start)
    = Raise (Exn ValueError (u"Expecting value")) /\
  fst (to_csv Sample.cpython Sample.config
         (Sample.raising_at 2 (Exn KeyboardInterrupt []) Sample.server_two)
         start)
    = Exit (halted_message Sample.config).
Proof.
  split.
  - apply (@request_errors_surface Sample.cpython Sample.config
             (Sample.raising_at 1 (Exn ValueError (u"Expecting value"))
                Sample.server_two)
             start 1%nat (fetch_request Sample.config (Some 2%Z))
             (Exn ValueError (u"Expecting value"))).
    + constructor.
    + vm_compute. reflexivity.
    + split; reflexivity.
  - apply (@request_errors_surface Sample.cpython Sample.config
             (Sample.raising_at 2 (Exn KeyboardInterrupt []) Sample.server_two)
             start 2%nat (metadata_request Sample.config (u"101"))
             (Exn KeyboardInterrupt [])).
    + constructor.
    + vm_compute. reflexivity.
    + split; reflexivity.
Defined.

(** ** Every run ends *)

Section Ends.

Variable py : Python.
Variable cfg : Config.
Variable server : Server.

(** X11: the [while] loop entered at index 0 is left within [t + 2]
    evaluations of its condition for a count [t] (within one when the
    count is negative or absent), whatever the responses; so every run
    ends, with a result, an exception or an exit. *)
Theorem every_run_ends (w : world) :
  (forall json_data total_count movies,
     fst (while_loop py cfg server (budget total_count) json_data total_count
            0 movies w) <> Fuel) /\
  fst (json_parser py cfg server w) <> Fuel /\
  fst (to_csv py cfg server w) <> Fuel.
Proof.
  split; [|split].
  - intros json_data total_count movies.
    apply total_while_loop, enough_budget.
  - apply total_json_parser.
  - apply total_to_csv.
Qed.

End Ends.

(** ** Ratings, counts and rows at the edges *)

Section Edges.

Variable py : Python.
Variable cfg : Config.
Variable server : Server.

Lemma visit_with_rating json_data count movies w r t y k dt z date v w1 :
  record py json_data count = inr r ->
  get_key py r (u"title") = inr t ->
  get_key py r (u"year") = inr y ->
  get_key py r (u"rating_key") = inr k ->
  get_key py r (u"date") = inr dt ->
  py_int py dt = inr z ->
  local_date py z = inr date ->
  rating_handler py cfg server (py_str py k) w = (Ret v, w1) ->
  visit py cfg server json_data count movies w
    = (Ret (offer (row_text py (render_title (py_str py t)) (py_str py y) v date)
                  movies), w1).
Proof.
  intros Hr Htitle Hyear Hkey Hdate Hz Hd Hrate.
  assert (forall w0, record_at py json_data count w0 = (Ret r, w0)) as Hrec
    by (intro w0; now rewrite record_at_lift, Hr).
  unfold visit.
  erewrite bind_eq by apply Hrec. erewrite bind_lift by exact Htitle.
  erewrite bind_eq by apply Hrec. erewrite bind_lift by exact Hyear.
  erewrite bind_eq by apply Hrec. erewrite bind_lift by exact Hkey.
  erewrite bind_eq by exact Hrate.
  erewrite bind_eq by apply Hrec. erewrite bind_lift by exact Hdate.
  erewrite bind_lift by exact Hz. erewrite bind_lift by exact Hd.
  reflexivity.
Qed.

(** X3: when the metadata response has a non-empty payload,
    [rating_handler] returns its [user_rating] member after that one
    request -- or raises the error of the lookup when the payload has no
    such member -- and the row of a record with that rating key carries
    the rating as [str] prints it, between the year and the date. *)
Theorem rating_is_user_rating (w : world) (rating : pystr) (j d : json) :
  server (length (calls w)) (metadata_request cfg rating) = inr j ->
  path py j payload_path = inr d ->
  truthy py d = true ->
  rating_handler py cfg server rating w
    = (match get_key py d (u"user_rating") with
       | inr v => Ret v
       | inl e => Raise e
       end,
       after w (metadata_request cfg rating) (inr j)) /\
  forall v json_data count movies r t y k dt z date,
    get_key py d (u"user_rating") = inr v ->
    record py json_data count = inr r ->
    get_key py r (u"title") = inr t ->
    get_key py r (u"year") = inr y ->
    get_key py r (u"rating_key") = inr k ->
    py_str py k = rating ->
    get_key py r (u"date") = inr dt ->
    py_int py dt = inr z ->
    local_date py z = inr date ->
    visit py cfg server json_data count movies w
      = (Ret (offer (render_title (py_str py t) ++ [COMMA] ++ py_str py y
                     ++ [COMMA] ++ py_str py v ++ [COMMA] ++ date) movies),
         after w (metadata_request cfg rating) (inr j)).
Proof.
  intros Hs Hp Ht.
  assert (rating_handler py cfg server rating w
    = (match get_key py d (u"user_rating") with
       | inr v => Ret v
       | inl e => Raise e
       end,
       after w (metadata_request cfg rating) (inr j))) as Hrate.
  { unfold rating_handler.
    erewrite bind_eq by (apply api_handler_reply; exact Hs).
    pose proof Hp as Hn. unfold payload_path in Hn.
    apply path_iterations in Hn. destruct Hn as [n Hn]. rewrite Hn. simpl.
    unfold payload_path in Hp. rewrite path2 in Hp. unfold bind.
    destruct (get_key py j (u"response")) as [e|r]; [discriminate|]. simpl.
    rewrite Hp. simpl. rewrite Ht. simpl.
    now destruct (get_key py d (u"user_rating")). }
  split; [assumption|].
  intros v json_data count movies r t y k dt z date Hv Hr Htitle Hyear Hkey
         Hk Hdate Hz Hd.
  rewrite Hv in Hrate. rewrite <- Hk in Hrate.
  rewrite (@visit_with_rating json_data count movies w r t y k dt z date v _
             Hr Htitle Hyear Hkey Hdate Hz Hd Hrate).
  now rewrite Hk.
Qed.

(** X4: a metadata response with nothing to iterate over -- an object
    without keys, an empty list -- makes [rating_handler] return [None]
    after its one request, without looking for a payload. *)
Theorem rating_of_empty_response (w : world) (rating : pystr) (j : json) :
  server (length (calls w)) (metadata_request cfg rating) = inr j ->
  iterations py j = inr 0%nat ->
  rating_handler py cfg server rating w
    = (Ret JNull, after w (metadata_request cfg rating) (inr j)) /\
  (forall k, exists e, get_key py j k = inl e).
Proof.
  intros Hs Hn. split.
  - unfold rating_handler.
    erewrite bind_eq by (apply api_handler_reply; exact Hs).
    now rewrite Hn.
  - intro k. destruct (get_key py j k) as [e|x] eqn:E; [now exists e|].
    apply get_key_iterations in E. destruct E as [n E]. congruence.
Qed.




End Edges.

(** ** Runs that cannot complete *)

Section Incomplete.

Variable py : Python.
Variable cfg : Config.
Variable server : Server.

Lemma to_csv_io_unparsed w :
  parsed (fst (json_parser py cfg server w)) = false ->
  io (snd (to_csv py cfg server w)) = io w.
Proof.
  intro Hp. pose proof (quiet_json_parser py cfg server w) as Hq.
  unfold to_csv, try_except, bind.
  destruct (json_parser py cfg server w) as [[[[m n]|]|e|msg|] w1];
    simpl in *; try discriminate; try assumption.
  destruct (is_class (cls e) TypeError); [assumption|].
  destruct (is_class (cls e) KeyboardInterrupt); assumption.
Qed.

(** X6: when the fetched list holds fewer records than the count the
    first response reported, the parser does not return a pair, the run
    does not complete, and the output file is neither opened nor
    written. *)
Theorem short_list_never_completes (w : world) (j1 x json_data : json)
    (t : Z) (l : list json) :
  server (length (calls w)) (count_request cfg) = inr j1 ->
  path py j1 count_path = inr x ->
  py_int py x = inr t ->
  server (S (length (calls w))) (fetch_request cfg (Some t)) = inr json_data ->
  path py json_data records_path = inr (JArr l) ->
  (len l < t)%Z ->
  parsed (fst (json_parser py cfg server w)) = false /\
  (forall w', to_csv py cfg server w <> (Ret tt, w')) /\
  io (snd (to_csv py cfg server w)) = io w.
Proof.
  intros Hs1 Hx Hz Hs2 Hl Hlt.
  assert (forall m n w', json_parser py cfg server w <> (Ret (Some (m, n)), w'))
    as Hnot.
  { intros m n w' H. unfold json_parser in H.
    erewrite bind_eq in H by (eapply get_length_count; eassumption).
    erewrite bind_eq in H.
    2: { apply api_handler_reply. cbn [after calls]. rewrite length_app.
         simpl length. rewrite Nat.add_1_r. exact Hs2. }
    unfold try_except in H.
    match type of H with
    | (match ?c ?w2 with _ => _ end) = _ => destruct (c w2) as [o w3] eqn:E
    end.
    destruct o as [a|e|msg|]; try discriminate.
    2: { destruct (is_class (cls e) IndexError); discriminate H. }
    inversion H; subst a w3. clear H.
    apply bind_ret_inv in E. destruct E as [passes [w3 [_ E]]].
    apply for_loop_returns in E. destruct E as [t' [Ht' [_ E]]].
    injection Ht' as <-.
    apply while_returns in E; [|lia].
    destruct E as [_ [l' [rows [new [Hl' [Htl _]]]]]].
    assert (l' = l) by congruence. subst l'. lia. }
  assert (parsed (fst (json_parser py cfg server w)) = false) as Hp.
  { destruct (json_parser py cfg server w) as [[[[m n]|]|e|msg|] w1] eqn:E;
      try reflexivity.
    now destruct (Hnot m n w1). }
  split; [assumption|]. split; [|now apply to_csv_io_unparsed].
  intros w' H. apply to_csv_ret_inv in H.
  destruct H as [m [n [w1 [H _]]]]. now apply Hnot in H.
Qed.

Lemma translate_header (ls : pystr) :
  translate ls (header ++ [CR; LF]) = header ++ [CR] ++ ls.
Proof.
  rewrite translate_app.
  assert (translate ls header = header) as -> by (vm_compute; reflexivity).
  simpl. now rewrite app_nil_r.
Qed.

Lemma writerow_header w :
  existsb (needs_escape py) header = false ->
  writerow py [header] w
    = (Ret tt, {| calls := calls w;
                  io := io w ++ [Write (header ++ [CR] ++ linesep py)] |}).
Proof.
  intro H. unfold writerow. cbn [existsb]. rewrite H. cbn [orb].
  assert (forallb encodable (header ++ [CR; LF]) = true) as He
    by (vm_compute; reflexivity).
  assert (exists c h, header = c :: h) as [c [h Eh]]
    by (vm_compute; eauto).
  rewrite <- translate_header.
  rewrite Eh in *. unfold write. cbn [join]. now rewrite He.
Qed.

(** X9: a row that holds a line feed or a carriage return -- the row of
    a watched record whose title has an embedded line feed and no comma is
    one -- makes the second [writerow] raise the error of the [csv]
    module, which no clause of [to_csv] catches: the run ends with that
    exception after the file was opened, and the file holds the header
    line and nothing else: the header, a carriage return and the line
    separator of the host. *)
Theorem row_with_newline_leaves_header_only (w w1 : world)
    (m : list pystr) (n : Z) :
  json_parser py cfg server w = (Ret (Some (m, n)), w1) ->
  open_error py = None ->
  dialect_error py = None ->
  existsb (needs_escape py) header = false ->
  (exists row, In row m /\ (In LF row \/ In CR row)) ->
  to_csv py cfg server w
    = (Raise (Exn CsvError (u"need to escape, but no escapechar set")),
       {| calls := calls w1;
          io := (io w1 ++ [Open])
                ++ [Write (header ++ [CR] ++ linesep py)] |}) /\
  content (snd (to_csv py cfg server w))
    = Some (header ++ [CR] ++ linesep py) /\
  (forall i rec row t,
     candidate py cfg server i rec row ->
     get_key py rec (u"title") = inr t ->
     contains COMMA (py_str py t) = false ->
     contains LF (py_str py t) = true ->
     In LF row).
Proof.
  intros Hp Ho Hd Hh [row [Hin Hrow]].
  assert (existsb (existsb (needs_escape py)) m = true) as Hm.
  { apply existsb_exists. exists row. split; [assumption|].
    apply existsb_exists. unfold needs_escape.
    destruct Hrow as [H|H]; eexists; (split; [exact H|]); reflexivity. }
  assert (to_csv py cfg server w
    = (Raise (Exn CsvError (u"need to escape, but no escapechar set")),
       {| calls := calls w1;
          io := (io w1 ++ [Open])
                ++ [Write (header ++ [CR] ++ linesep py)] |})) as Hrun.
  { unfold to_csv, try_except. erewrite bind_eq by exact Hp.
    unfold bind at 1. unfold open_file. rewrite Ho.
    unfold bind at 1. unfold make_writer. rewrite Hd. unfold ret at 1.
    unfold bind at 1. rewrite (writerow_header _ Hh).
    unfold writerow. rewrite Hm. reflexivity. }
  split; [assumption|]. split.
  - rewrite Hrun. unfold content. cbn [snd io].
    rewrite <- app_assoc, content_from_app. reflexivity.
  - intros i rec row' t Hc Ht Hcomma Hlf.
    destruct Hc as [t' [y [k [d [z [date [j [rating H]]]]]]]].
    destruct H as [Ht' [_ [_ [_ [_ [_ [_ [_ ->]]]]]]]].
    assert (t' = t) by congruence. subst t'.
    unfold row_text, render_title. rewrite Hcomma.
    apply in_or_app. left. now apply contains_In.
Qed.

End Incomplete.

Lemma rating_is_user_rating_witness :
  rating_handler Sample.cpython Sample.config Sample.server_two (u"101") start
    = (Ret (JInt 8),
       after start (metadata_request Sample.config (u"101"))
             (Sample.rated (JInt 8) (u"101"))) /\
  fst (visit Sample.cpython Sample.config Sample.server_two
             (Sample.history 2 Sample.two_records) 0 [] start)
    = Ret [[DQUOTE] ++ u"Movie, The Sequel" ++ [DQUOTE]
           ++ u",2019,8,2023-11-14"].
Proof.
  destruct (@rating_is_user_rating
              Sample.cpython Sample.config Sample.server_two start
              (u"101") _ (JObj [(u"user_rating", JInt 8)])
              eq_refl eq_refl eq_refl) as [H1 H2].
  split; [exact H1|].
  rewrite (H2 (JInt 8) (Sample.history 2 Sample.two_records) 0%Z []
              _ _ _ _ _ _ _ eq_refl
              eq_refl eq_refl eq_refl eq_refl eq_refl eq_refl eq_refl eq_refl).
  vm_compute. reflexivity.
Defined.

Lemma rating_of_empty_response_witness :
  rating_handler Sample.cpython Sample.config (fun _ _ => inr (JObj []))
                 (u"101") start
    = (Ret JNull,
       after start (metadata_request Sample.config (u"101")) (inr (JObj []))) /\
  (forall k, exists e, get_key Sample.cpython (JObj []) k = inl e).
Proof.
  apply (@rating_of_empty_response
           Sample.cpython Sample.config (fun _ _ => inr (JObj [])) start
           (u"101") (JObj []) eq_refl eq_refl).
Defined.


Lemma short_list_never_completes_witness :
  parsed (fst (json_parser Sample.cpython Sample.config Sample.server_short
                 start)) = false /\
  (forall w', to_csv Sample.cpython Sample.config Sample.server_short start
              <> (Ret tt, w')) /\
  io (snd (to_csv Sample.cpython Sample.config Sample.server_short start)) = [].
Proof.
  apply (@short_list_never_completes
           Sample.cpython Sample.config Sample.server_short start
           _ _ _ 3%Z _ eq_refl eq_refl eq_refl eq_refl eq_refl).
  reflexivity.
Defined.

Lemma row_with_newline_leaves_header_only_witness :
  fst (to_csv Sample.cpython Sample.config Sample.server_newline start)
    = Raise (Exn CsvError (u"need to escape, but no escapechar set")) /\
  content (snd (to_csv Sample.cpython Sample.config Sample.server_newline start))
    = Some (header ++ [CR; LF]).
Proof.
  destruct (@row_with_newline_leaves_header_only
              Sample.cpython Sample.config Sample.server_newline start
              (snd (json_parser Sample.cpython Sample.config
                      Sample.server_newline start))
              [u"Line One" ++ [LF] ++ u"Line Two,2021,7,2023-11-14"] 1%Z)
    as [H1 [H2 _]].
  - vm_compute. reflexivity.
  - reflexivity.
  - reflexivity.
  - reflexivity.
  - eexists. split; [left; reflexivity|]. left. vm_compute. tauto.
  - rewrite H1. split; [reflexivity | exact H2].
Defined.

(** ** The records the loop passes over *)

Section Passes.

Variable py : Python.
Variable cfg : Config.
Variable server : Server.







End Passes.


